(** * FillFeed: a shallow embedding of [src/fillFeed.ts]

    The poll loop ([FillFeed.parseLogs]), the per-signature extraction
    ([FillFeed.handleSignature]), the stop-and-wait operation
    ([FillFeed.stopParseLogs]) and the two result converters
    ([toFillLogResult], [toPlaceOrderLogResult]) are modelled as they are
    written: the mutable fields of the class and the effects on the
    outside (console, websocket clients, the prometheus counter) live in
    one record [World]; code that may throw runs in a small state and
    exception monad [M]; the awaited remote calls and the clock are
    oracles supplied per call. *)

From Stdlib Require Import ZArith NArith List String Ascii Bool Lia.
From Stdlib Require Import Strings.Byte.
From Stdlib Require Import DecimalString DecimalN.
From Stdlib Require Lists.Finite.
Import ListNotations.

Local Open Scope string_scope.
Local Open Scope list_scope.
Local Open Scope Z_scope.

(** ** JavaScript strings: [String.prototype.includes] and [split] *)

Module JsString.

(** [hay.includes(needle)] *)
Fixpoint includes (needle hay : string) : bool :=
  String.prefix needle hay
  || match hay with
     | EmptyString => false
     | String _ rest => includes needle rest
     end.

(** [s.split(sep)] for a separator of one character: the result always
    has at least one element, and consecutive separators give empty
    tokens. *)
Fixpoint split (sep : ascii) (s : string) : list string :=
  match s with
  | EmptyString => [EmptyString]
  | String c rest =>
      if Ascii.eqb c sep then EmptyString :: split sep rest
      else match split sep rest with
           | tok :: toks => String c tok :: toks
           | [] => [String c EmptyString]
           end
  end.

(** [String(v)] of a value that is a string or [undefined] *)
Definition toString (v : option string) : string :=
  match v with
  | Some s => s
  | None => "undefined"
  end.

End JsString.

(** ** JavaScript [Set<string>]: membership with insertion order *)

Module JsSet.

Definition t := list string.

Definition empty : t := [].

Definition has (x : string) (s : t) : bool := existsb (String.eqb x) s.

Definition add (x : string) (s : t) : t := if has x s then s else s ++ [x].

Definition delete (x : string) (s : t) : t :=
  filter (fun y => negb (String.eqb x y)) s.

Definition size (s : t) : nat := List.length s.

(** [new Set(array)] *)
Definition of_array (a : list string) : t :=
  fold_left (fun acc x => add x acc) a empty.

(** [Array.from(set)] *)
Definition to_array (s : t) : list string := s.

End JsSet.

(** [array.slice(-n)]: the last [n] elements, the whole array when it is
    shorter. *)
Definition slice_last {A : Type} (n : nat) (a : list A) : list A :=
  skipn (List.length a - n) a.

(** [array[array.length - 1]] *)
Definition last_elem {A : Type} (a : list A) : option A :=
  nth_error a (List.length a - 1).

(** ** Data of the remote ledger *)

Record ConfirmedSignatureInfo := mkSig {
  signature : string;
  slot : Z
}.

Inductive TransactionError := TxErr (description : string).

Record TransactionMeta := mkMeta {
  logMessages : option (list string);
  err : option TransactionError
}.

Record TransactionResponse := mkTx {
  meta : option TransactionMeta
}.

(** Options of [getSignaturesForAddress] *)
Record SignaturesQuery := mkQuery {
  limit : option nat;
  until : option string
}.

(** ** Events of the Manifest program, as the SDK hands them over *)

Definition PublicKey := list byte.

(** A JavaScript [number]: the eight bytes of an IEEE 754 double. *)
Inductive JsNumber := Float64 (b0 b1 b2 b3 b4 b5 b6 b7 : byte).

(** The 64 bits of a number, read as an unsigned integer *)
Definition float64_bits (x : JsNumber) : N :=
  match x with
  | Float64 b0 b1 b2 b3 b4 b5 b6 b7 =>
      fold_right (fun b acc => Byte.to_N b + 256 * acc)%N 0%N
                 [b0; b1; b2; b3; b4; b5; b6; b7]
  end.

Record FillLog := mkFillLog {
  fl_market : PublicKey;
  fl_maker : PublicKey;
  fl_taker : PublicKey;
  fl_price_inner : N;
  fl_baseAtoms_inner : N;
  fl_quoteAtoms_inner : N;
  fl_makerSequenceNumber : N;
  fl_takerSequenceNumber : N;
  fl_takerIsBuy : bool;
  fl_isMakerGlobal : bool
}.

Record PlaceOrderLog := mkPlaceOrderLog {
  po_market : PublicKey;
  po_trader : PublicKey;
  po_price_inner : N;
  po_baseAtoms_inner : N;
  po_orderSequenceNumber : N;
  po_orderIndex : Z;
  po_lastValidSlot : Z;
  po_orderType : N;
  po_isBid : bool;
  po_padding : list Z
}.

Record FillLogResult := mkFillLogResult {
  flr_market : string;
  flr_maker : string;
  flr_taker : string;
  flr_baseAtoms : string;
  flr_quoteAtoms : string;
  flr_priceAtoms : JsNumber;
  flr_takerIsBuy : bool;
  flr_isMakerGlobal : bool;
  flr_makerSequenceNumber : string;
  flr_takerSequenceNumber : string;
  flr_signature : string;
  flr_slot : Z
}.

Record PlaceOrderLogResult := mkPlaceOrderLogResult {
  por_market : string;
  por_trader : string;
  por_baseAtoms : string;
  por_price : JsNumber;
  por_orderSequenceNumber : string;
  por_orderIndex : Z;
  por_lastValidSlot : Z;
  por_orderType : N;
  por_isBid : bool;
  por_padding : list Z;
  por_signature : string;
  por_slot : Z
}.

(** [bignum.toString()]: the decimal digits of the value *)
Definition bignum_toString (n : N) : string :=
  NilZero.string_of_uint (N.to_uint n).

(** Reading a decimal string back, as a consumer of the feed does *)
Definition parse_decimal (s : string) : option N :=
  option_map N.of_uint (NilZero.uint_of_string s).

(** ** Exceptions and the effect monad *)

Inductive JsError :=
| TypeError (msg : string)
| InvalidCharacterError
| RpcError (msg : string)
| DeserializeError (msg : string)
| Error (msg : string).

Inductive completion (A : Type) :=
| Normal (a : A)
| Throw (e : JsError).
Arguments Normal {A} a.
Arguments Throw {A} e.

Definition ClientId := nat.

(** What the websocket server sends: [{type: "fill", data}] or
    [{type: "placeOrder", data}] *)
Inductive Message :=
| FillMessage (data : FillLogResult)
| PlaceOrderMessage (data : PlaceOrderLogResult).

(** Labels of one [fills.inc] *)
Record FillLabels := mkFillLabels {
  lbl_market : string;
  lbl_isGlobal : bool;
  lbl_takerIsBuy : bool
}.

(** Lines written with [console.log] *)
Inductive LogLine :=
| LogHandling (sig : string) (slot : Z)
| LogNoLogMessages
| LogSkippingFailedTx (sig : string)
| LogNoProgramDatas
| LogGotFill (data : FillLogResult)
| LogGotOrder (data : PlaceOrderLogResult)
| LogNewLast (sig : string) (slot : Z) (numSigs : nat)
| LogEndedLoop.

(** The fields of a [FillFeed] object together with everything it has
    written to the outside so far. *)
Record World := mkWorld {
  shouldEnd : bool;
  ended : bool;
  lastUpdateUnix : Z;
  processingSignatures : JsSet.t;
  wssOpen : bool;
  clients : list ClientId;
  console : list LogLine;
  sent : list (ClientId * Message);
  fills : list FillLabels
}.

Definition M (A : Type) : Type := World -> completion A * World.

Definition ret {A : Type} (a : A) : M A := fun w => (Normal a, w).

Definition throw {A : Type} (e : JsError) : M A := fun w => (Throw e, w).

Definition bind {A B : Type} (m : M A) (k : A -> M B) : M B :=
  fun w =>
    match m w with
    | (Normal a, w') => k a w'
    | (Throw e, w') => (Throw e, w')
    end.

Definition get : M World := fun w => (Normal w, w).

Definition modify (f : World -> World) : M unit := fun w => (Normal tt, f w).

(** [await] of a promise the environment has already settled *)
Definition await {A : Type} (c : completion A) : M A := fun w => (c, w).

Declare Scope js_scope.
Delimit Scope js_scope with js.
Notation "x <- m ;; k" := (bind m (fun x => k))
  (at level 61, m at next level, right associativity) : js_scope.
Notation "m ;; k" := (bind m (fun _ => k))
  (at level 61, right associativity) : js_scope.
Local Open Scope js_scope.

(** [for (const x of xs) body]; a [continue] in the body is its normal end *)
Fixpoint for_of {A : Type} (xs : list A) (body : A -> M unit) : M unit :=
  match xs with
  | [] => ret tt
  | x :: rest => body x ;; for_of rest body
  end.

(** Field updates *)
Definition set_shouldEnd (b : bool) (w : World) : World :=
  mkWorld b (ended w) (lastUpdateUnix w) (processingSignatures w) (wssOpen w)
          (clients w) (console w) (sent w) (fills w).

Definition set_ended (b : bool) (w : World) : World :=
  mkWorld (shouldEnd w) b (lastUpdateUnix w) (processingSignatures w) (wssOpen w)
          (clients w) (console w) (sent w) (fills w).

Definition set_lastUpdateUnix (t : Z) (w : World) : World :=
  mkWorld (shouldEnd w) (ended w) t (processingSignatures w) (wssOpen w)
          (clients w) (console w) (sent w) (fills w).

Definition set_processingSignatures (s : JsSet.t) (w : World) : World :=
  mkWorld (shouldEnd w) (ended w) (lastUpdateUnix w) s (wssOpen w)
          (clients w) (console w) (sent w) (fills w).

Definition close_wss (w : World) : World :=
  mkWorld (shouldEnd w) (ended w) (lastUpdateUnix w) (processingSignatures w) false
          (clients w) (console w) (sent w) (fills w).

Definition console_log (l : LogLine) : M unit :=
  modify (fun w =>
    mkWorld (shouldEnd w) (ended w) (lastUpdateUnix w) (processingSignatures w)
            (wssOpen w) (clients w) (console w ++ [l]) (sent w) (fills w)).

(** [this.wss.clients.forEach((client) => client.send(msg))] *)
Definition broadcast (msg : Message) : M unit :=
  modify (fun w =>
    mkWorld (shouldEnd w) (ended w) (lastUpdateUnix w) (processingSignatures w)
            (wssOpen w) (clients w) (console w)
            (sent w ++ map (fun c => (c, msg)) (clients w)) (fills w)).

(** [fills.inc(labels)] *)
Definition fills_inc (l : FillLabels) : M unit :=
  modify (fun w =>
    mkWorld (shouldEnd w) (ended w) (lastUpdateUnix w) (processingSignatures w)
            (wssOpen w) (clients w) (console w) (sent w) (fills w ++ [l])).

(** ** The collaborators outside the repository

    The RPC connection's [getTransaction], the platform's [atob] and the
    Manifest SDK ([genAccDiscriminator], the two [deserialize] functions,
    [convertU128], [PublicKey.toBase58]) are not code of this repository:
    the feed is verified against every behaviour they may have. *)

Record Env := mkEnv {
  getTransaction : string -> completion (option TransactionResponse);
  atob : string -> option (list byte);
  fillDiscriminant : list byte;
  placeOrderDiscriminant : list byte;
  FillLog_deserialize : list byte -> completion FillLog;
  PlaceOrderLog_deserialize : list byte -> completion PlaceOrderLog;
  convertU128 : N -> JsNumber;
  toBase58 : PublicKey -> string
}.

(** [Buffer.equals] *)
Definition buffer_equals (a b : list byte) : bool :=
  if list_eq_dec Byte.byte_eq_dec a b then true else false.

(** The constants at the top of the file *)
Definition POLL_INTERVAL : Z := 500.
Definition TIMEOUT : Z := 30000.

(** What reading [.signature] of [undefined] throws *)
Definition undefined_signature : JsError :=
  TypeError "Cannot read properties of undefined (reading 'signature')".

(** The high-water mark of [processingSignatures] *)
Definition HIGH_WATER : nat := 1000.

Section FillFeed.

Variable E : Env.

(** *** [toFillLogResult] and [toPlaceOrderLogResult] *)

Definition toFillLogResult (fillLog : FillLog) (slot : Z) (signature : string)
  : FillLogResult :=
  {| flr_market := toBase58 E (fl_market fillLog);
     flr_maker := toBase58 E (fl_maker fillLog);
     flr_taker := toBase58 E (fl_taker fillLog);
     flr_baseAtoms := bignum_toString (fl_baseAtoms_inner fillLog);
     flr_quoteAtoms := bignum_toString (fl_quoteAtoms_inner fillLog);
     flr_priceAtoms := convertU128 E (fl_price_inner fillLog);
     flr_takerIsBuy := fl_takerIsBuy fillLog;
     flr_isMakerGlobal := fl_isMakerGlobal fillLog;
     flr_makerSequenceNumber := bignum_toString (fl_makerSequenceNumber fillLog);
     flr_takerSequenceNumber := bignum_toString (fl_takerSequenceNumber fillLog);
     flr_signature := signature;
     flr_slot := slot |}.

Definition toPlaceOrderLogResult (placeOrderLog : PlaceOrderLog) (slot : Z)
  (signature : string) : PlaceOrderLogResult :=
  {| por_market := toBase58 E (po_market placeOrderLog);
     por_trader := toBase58 E (po_trader placeOrderLog);
     por_baseAtoms := bignum_toString (po_baseAtoms_inner placeOrderLog);
     por_price := convertU128 E (po_price_inner placeOrderLog);
     por_orderSequenceNumber :=
       bignum_toString (po_orderSequenceNumber placeOrderLog);
     por_orderIndex := po_orderIndex placeOrderLog;
     por_lastValidSlot := po_lastValidSlot placeOrderLog;
     por_orderType := po_orderType placeOrderLog;
     por_isBid := po_isBid placeOrderLog;
     por_padding := po_padding placeOrderLog;
     por_signature := signature;
     por_slot := slot |}.

(** *** [FillFeed.handleSignature] *)

(** [programDataEntry.split(" ")[2]]: a string, or [undefined] when the
    line has fewer than three tokens *)
Definition programData_of (programDataEntry : string) : option string :=
  nth_error (JsString.split " "%char programDataEntry) 2.

(** [Uint8Array.from(atob(programData), ...)] then [Buffer.from]: [atob]
    converts its argument to a string first and throws on text that is
    not base64 *)
Definition decode_programData (programData : option string) : M (list byte) :=
  match atob E (JsString.toString programData) with
  | Some bytes => ret bytes
  | None => throw InvalidCharacterError
  end.

(** The body of the loop over [programDatas] from the test of the first
    eight bytes of [buffer] on *)
Definition handleBuffer (sig : ConfirmedSignatureInfo) (buffer : list byte)
  : M unit :=
  if buffer_equals (firstn 8 buffer) (fillDiscriminant E) then
    deserializedFillLog <- await (FillLog_deserialize E (skipn 8 buffer)) ;;
    let result :=
      toFillLogResult deserializedFillLog (slot sig) (signature sig) in
    console_log (LogGotFill result) ;;
    fills_inc {| lbl_market := toBase58 E (fl_market deserializedFillLog);
                 lbl_isGlobal := fl_isMakerGlobal deserializedFillLog;
                 lbl_takerIsBuy := fl_takerIsBuy deserializedFillLog |} ;;
    broadcast (FillMessage result)
  else if buffer_equals (firstn 8 buffer) (placeOrderDiscriminant E) then
    deserializedPlaceOrderLog <-
      await (PlaceOrderLog_deserialize E (skipn 8 buffer)) ;;
    let result :=
      toPlaceOrderLogResult deserializedPlaceOrderLog (slot sig)
                            (signature sig) in
    console_log (LogGotOrder result) ;;
    broadcast (PlaceOrderMessage result)
  else ret tt.

(** The body of the loop over [programDatas] *)
Definition handleProgramData (sig : ConfirmedSignatureInfo)
  (programDataEntry : string) : M unit :=
  let programData := programData_of programDataEntry in
  buffer <- decode_programData programData ;;
  handleBuffer sig buffer.

(** [tx?.meta?.logMessages] *)
Definition tx_logMessages (tx : option TransactionResponse)
  : option (TransactionMeta * list string) :=
  match tx with
  | None => None
  | Some t =>
      match meta t with
      | None => None
      | Some m =>
          match logMessages m with
          | None => None
          | Some msgs => Some (m, msgs)
          end
      end
  end.

Definition PROGRAM_DATA : string := "Program data:".

(** [Array.from(new Set(messages.filter(...)))] *)
Definition programDatas_of (messages : list string) : list string :=
  JsSet.to_array
    (JsSet.of_array (filter (JsString.includes PROGRAM_DATA) messages)).

Definition handleSignature (sig : ConfirmedSignatureInfo) : M unit :=
  console_log (LogHandling (signature sig) (slot sig)) ;;
  tx <- await (getTransaction E (signature sig)) ;;
  match tx_logMessages tx with
  | None => console_log LogNoLogMessages
  | Some (m, messages) =>
      match err m with
      | Some _ => console_log (LogSkippingFailedTx (signature sig))
      | None =>
          let programDatas := programDatas_of messages in
          if (List.length programDatas =? 0)%nat
          then console_log LogNoProgramDatas
          else for_of programDatas (handleProgramData sig)
      end
  end.

(** *** [FillFeed.parseLogs] *)

(** [lastSignature] and [lastSlot], the two locals of [parseLogs] *)
Record Cursor := mkCursor {
  lastSignature : string;
  lastSlot : Z
}.

(** The body of the loop over one batch *)
Definition processSignature (lastSlot : Z) (sig : ConfirmedSignatureInfo)
  : M unit :=
  w <- get ;;
  if JsSet.has (signature sig) (processingSignatures w) then ret tt
  else if slot sig <? lastSlot then ret tt
  else
    modify (fun w =>
      set_processingSignatures
        (JsSet.add (signature sig) (processingSignatures w)) w) ;;
    handleSignature sig ;;
    modify (fun w =>
      set_processingSignatures
        (JsSet.delete (signature sig) (processingSignatures w)) w).

(** The trim at the end of a batch *)
Definition trim_processingSignatures (s : JsSet.t) : JsSet.t :=
  if (HIGH_WATER <? JsSet.size s)%nat
  then JsSet.of_array (slice_last HIGH_WATER (JsSet.to_array s))
  else s.

(** What one turn of the loop reads from outside: whether a
    stop-and-wait has raised [shouldEnd] since the last test of the loop
    condition, the clock at that test, how the remote source settles a
    query (with an answer, or with a rejection), and the clock when
    [lastUpdateUnix] is written. *)
Record Poll := mkPoll {
  stopRequested : bool;
  nowAtCheck : Z;
  source : SignaturesQuery -> completion (list ConfirmedSignatureInfo);
  nowAtUpdate : Z
}.

(** One turn of the [while] loop, after its condition held *)
Definition pollOnce (p : Poll) (cur : Cursor) : M Cursor :=
  answer <-
    await (source p {| limit := None; until := Some (lastSignature cur) |}) ;;
  let signatures := rev answer in
  if (List.length signatures <? 1)%nat then ret cur
  else
    for_of signatures (processSignature (lastSlot cur)) ;;
    match last_elem signatures with
    | None => throw undefined_signature
    | Some newest =>
        console_log (LogNewLast (signature newest) (slot newest)
                                (List.length signatures)) ;;
        modify (set_lastUpdateUnix (nowAtUpdate p)) ;;
        modify (fun w =>
          set_processingSignatures
            (trim_processingSignatures (processingSignatures w)) w) ;;
        ret {| lastSignature := signature newest; lastSlot := slot newest |}
    end.

(** The [while] loop over the turns the environment supplies; the
    boolean tells whether the loop condition failed ([true]) or the
    supplied turns ran out with the loop still running ([false]). *)
Fixpoint pollLoop (endTime : Z) (polls : list Poll) (cur : Cursor)
  : M (bool * Cursor) :=
  match polls with
  | [] => ret (false, cur)
  | p :: rest =>
      modify (fun w => set_shouldEnd (shouldEnd w || stopRequested p) w) ;;
      w <- get ;;
      if negb (shouldEnd w) && (nowAtCheck p <? endTime) then
        cur' <- pollOnce p cur ;;
        pollLoop endTime rest cur'
      else ret (true, cur)
  end.

(** What [parseLogs] reads before the loop: how the first query is
    settled, and the clock *)
Record Startup := mkStartup {
  firstSource : SignaturesQuery -> completion (list ConfirmedSignatureInfo);
  nowAtStart : Z
}.

Definition endTime_of (endEarly : bool) (now : Z) : Z :=
  if endEarly then now + 30000 else now + 1000000000000.

Definition parseLogs (endEarly : bool) (s : Startup) (polls : list Poll)
  : M (bool * Cursor) :=
  answer <-
    await (firstSource s {| limit := Some 1%nat; until := None |}) ;;
  match nth_error answer 0 with
  | None => throw undefined_signature
  | Some lastSignatureStatus =>
      let cur := {| lastSignature := signature lastSignatureStatus;
                    lastSlot := slot lastSignatureStatus |} in
      r <- pollLoop (endTime_of endEarly (nowAtStart s)) polls cur ;;
      if fst r then
        console_log LogEndedLoop ;;
        modify close_wss ;;
        modify (set_ended true) ;;
        ret r
      else ret r
  end.

(** *** [FillFeed.stopParseLogs] *)

Inductive StopResult :=
| Resolved
| Rejected (e : JsError)
| Waiting.

(** What one turn of the waiting loop meets: the clock at the timeout
    test and what the rest of the program does to the object during the
    sleep that follows. *)
Record StopTick := mkStopTick {
  nowAtTest : Z;
  duringSleep : World -> World
}.

Definition stop_error : JsError :=
  Error "failed to stop parseLogs after 30 seconds".

Fixpoint stopWait (start : Z) (ticks : list StopTick) (w : World)
  : StopResult * World :=
  if ended w then (Resolved, w)
  else match ticks with
       | [] => (Waiting, w)
       | t :: rest =>
           if nowAtTest t - start >? TIMEOUT then (Rejected stop_error, w)
           else stopWait start rest (duringSleep t w)
       end.

Definition stopParseLogs (start : Z) (ticks : list StopTick) (w : World)
  : StopResult * World :=
  stopWait start ticks (set_shouldEnd true w).

End FillFeed.

(** ** The constructor, [msSinceLastUpdate] and [monitorFeed] *)

(** [new FillFeed(connection)] when the clock shows [now]. The console
    and the [fills] counter belong to the process, not to the object: the
    constructor finds them as they are. No listener is connected yet. *)
Definition newFillFeed (now : Z) (console0 : list LogLine)
  (fills0 : list FillLabels) : World :=
  {| shouldEnd := false; ended := false; lastUpdateUnix := now;
     processingSignatures := JsSet.empty; wssOpen := true;
     clients := []; console := console0; sent := []; fills := fills0 |}.

(** [Date.now() - this.lastUpdateUnix] *)
Definition msSinceLastUpdate (now : Z) (w : World) : Z :=
  now - lastUpdateUnix w.

(** What one turn of [monitorFeed] meets after its sleep: the clock and
    the feed as it is then. *)
Record MonitorCheck := mkCheck {
  nowAtMonitor : Z;
  feedAtMonitor : World
}.

Definition deadThreshold : Z := 300000.

Definition monitor_error : JsError :=
  Error "fillFeed has had no updates since 300 seconds ago.".

(** [monitorFeed]: the loop has no exit but the exception; [None] says
    that it is still running after the turns supplied. *)
Fixpoint monitorFeed (checks : list MonitorCheck) : option JsError :=
  match checks with
  | [] => None
  | c :: rest =>
      let msSinceUpdate :=
        msSinceLastUpdate (nowAtMonitor c) (feedAtMonitor c) in
      if msSinceUpdate >? deadThreshold then Some monitor_error
      else monitorFeed rest
  end.

(** * Vocabulary of the properties *)

(** The fields of the object that only [parseLogs] and [stopParseLogs]
    write *)
Definition same_fields (w w' : World) : Prop :=
  shouldEnd w' = shouldEnd w /\ ended w' = ended w
  /\ lastUpdateUnix w' = lastUpdateUnix w
  /\ processingSignatures w' = processingSignatures w
  /\ wssOpen w' = wssOpen w /\ clients w' = clients w.

(** A computation keeps a relation between the world before and after,
    whether it ends normally or throws. *)
Definition keeps {A : Type} (R : World -> World -> Prop) (m : M A) : Prop :=
  forall w, R w (snd (m w)).

(** The world in which [handleSignature] runs: the signature added *)
Definition entering (sig : ConfirmedSignatureInfo) (w : World) : World :=
  set_processingSignatures
    (JsSet.add (signature sig) (processingSignatures w)) w.

(** The world after it: the signature deleted *)
Definition leaving (sig : ConfirmedSignatureInfo) (w : World) : World :=
  set_processingSignatures
    (JsSet.delete (signature sig) (processingSignatures w)) w.

(** No signature of the batch makes [handleSignature] throw. *)
Definition handles_all (E : Env) (batch : list ConfirmedSignatureInfo)
  : Prop :=
  forall sig, In sig batch ->
  forall w, exists w', handleSignature E sig w = (Normal tt, w').

(** [handleSignature] starts by writing a line "Handling <signature> slot
    <slot>" to the console, and nothing else writes such a line: the
    console tells which signatures were processed, and in which order. *)
Definition handled_of_line (l : LogLine) : list ConfirmedSignatureInfo :=
  match l with
  | LogHandling s sl => [mkSig s sl]
  | _ => []
  end.

(** The signatures processed so far *)
Definition handled (w : World) : list ConfirmedSignatureInfo :=
  flat_map handled_of_line (console w).

(** The signatures processed between two states of the object *)
Definition handled_since (w w' : World) : list ConfirmedSignatureInfo :=
  skipn (List.length (handled w)) (handled w').

(** No signature was processed in between *)
Definition same_handled (w w' : World) : Prop := handled w' = handled w.

(** The two guards of the batch loop *)
Definition passes (set : JsSet.t) (ls : Z) (sig : ConfirmedSignatureInfo)
  : bool :=
  negb (JsSet.has (signature sig) set) && (ls <=? slot sig).

(** The query of a turn: everything newer than the cursor *)
Definition since (cur : Cursor) : SignaturesQuery :=
  {| limit := None; until := Some (lastSignature cur) |}.

(** The cursor on a signature *)
Definition cursor_at (sig : ConfirmedSignatureInfo) : Cursor :=
  {| lastSignature := signature sig; lastSlot := slot sig |}.

(** The object after the three statements that close a batch *)
Definition batch_end (p : Poll) (newest : ConfirmedSignatureInfo) (n : nat)
  (w : World) : World :=
  let w1 := snd (console_log (LogNewLast (signature newest) (slot newest) n) w) in
  let w2 := set_lastUpdateUnix (nowAtUpdate p) w1 in
  set_processingSignatures
    (trim_processingSignatures (processingSignatures w2)) w2.

(** The three conditions under which a transaction is passed over: no
    detail (or no [meta]), no log messages, a recorded error. *)
Definition passed_over (r : completion (option TransactionResponse)) : bool :=
  match r with
  | Throw _ => false
  | Normal None => true
  | Normal (Some tx) =>
      match meta tx with
      | None => true
      | Some m =>
          match logMessages m with
          | None => true
          | Some [] => true
          | Some _ => match err m with Some _ => true | None => false end
          end
      end
  end.

(** The two fields that only the last statements of [parseLogs] write *)
Definition same_server (w w' : World) : Prop :=
  ended w' = ended w /\ wssOpen w' = wssOpen w.

(** The answers of the remote source ascend: the newest signature of each
    non-empty answer has a slot not below [lo], the slot of the newest
    signature answered before. *)
Fixpoint answers_ascend (lo : Z) (polls : list Poll) : Prop :=
  match polls with
  | [] => True
  | p :: rest =>
      forall q,
        match source p q with
        | Normal [] => answers_ascend lo rest
        | Normal (newest :: _) =>
            lo <= slot newest /\ answers_ascend (slot newest) rest
        | Throw _ => True
        end
  end.

(** What the rest of the program makes of the object over some sleeps *)
Definition after_sleeps (ticks : list StopTick) (w : World) : World :=
  fold_left (fun w t => duringSleep t w) ticks w.

(** A test of the waiting loop that is not past the timeout *)
Definition in_time (start : Z) (t : StopTick) : Prop :=
  nowAtTest t - start <= TIMEOUT.

(** The first query of [parseLogs]: one signature, the most recent *)
Definition most_recent_one : SignaturesQuery :=
  {| limit := Some 1%nat; until := None |}.

(** A string in which the character does not occur *)
Fixpoint free_of (c : ascii) (s : string) : bool :=
  match s with
  | EmptyString => true
  | String a rest => negb (Ascii.eqb a c) && free_of c rest
  end.

(** White space, as [String.prototype.trim] and the regular expression
    class [\s] have it within ASCII: tab, line feed, vertical tab, form
    feed, carriage return and space *)
Definition is_whitespace (c : ascii) : bool :=
  let n := nat_of_ascii c in
  ((9 <=? n) && (n <=? 13))%nat || (n =? 32)%nat.

(** The words of a line in the sense of the specification: the maximal
    runs of characters that are not white space, in order. [word] is the
    run read so far, if one has begun. *)
Fixpoint words_from (word : option string) (s : string) : list string :=
  match s with
  | EmptyString =>
      match word with
      | Some t => [t]
      | None => []
      end
  | String c rest =>
      if is_whitespace c then
        match word with
        | Some t => t :: words_from None rest
        | None => words_from None rest
        end
      else
        words_from (Some (match word with
                          | Some t => t ++ String c EmptyString
                          | None => String c EmptyString
                          end)%string) rest
  end.

Definition whitespace_separated_tokens (line : string) : list string :=
  words_from None line.

(** The third white-space-separated token of a line, in the
    specification's words *)
Definition third_whitespace_token (line : string) : option string :=
  nth_error (whitespace_separated_tokens line) 2.

(** A line of at least three tokens separated by single spaces *)
Definition line_of (t0 t1 payload : string) (more : option string) : string :=
  (t0 ++ String " " (t1 ++ String " "
     match more with
     | None => payload
     | Some r => payload ++ String " " r
     end))%string.

(** A turn in which the remote source has nothing new, whatever is asked *)
Definition quiet (p : Poll) : Prop := forall q, source p q = Normal [].

(** A check of the monitor that finds the feed without an update for more
    than the threshold *)
Definition stale (c : MonitorCheck) : Prop :=
  msSinceLastUpdate (nowAtMonitor c) (feedAtMonitor c) > deadThreshold.

(** The world in which the lines of a transaction are handled: the line
    "Handling ..." written *)
Definition announced (sig : ConfirmedSignatureInfo) (w : World) : World :=
  snd (console_log (LogHandling (signature sig) (slot sig)) w).

(** A transaction that succeeded and carries the log [messages] *)
Definition succeeded_with (messages : list string)
  (r : completion (option TransactionResponse)) : Prop :=
  exists tx m,
    r = Normal (Some tx) /\ meta tx = Some m
    /\ logMessages m = Some messages /\ err m = None.

(** What every listener receives for one message *)
Definition to_all (cs : list ClientId) (msg : Message)
  : list (ClientId * Message) :=
  map (fun c => (c, msg)) cs.

(** The labels [fills.inc] is called with for a fill *)
Definition labels_of (E : Env) (f : FillLog) : FillLabels :=
  {| lbl_market := toBase58 E (fl_market f);
     lbl_isGlobal := fl_isMakerGlobal f;
     lbl_takerIsBuy := fl_takerIsBuy f |}.

(** ** A small ledger to run the feed on *)

Module Ledger.

Definition market : PublicKey := [x01; x02; x03].
Definition alice : PublicKey := [x0a].
Definition bob : PublicKey := [x0b].

Definition sample_fill : FillLog :=
  {| fl_market := market; fl_maker := alice; fl_taker := bob;
     fl_price_inner := 1500000000000000000%N;
     fl_baseAtoms_inner := 18446744073709551615%N;
     fl_quoteAtoms_inner := 42%N;
     fl_makerSequenceNumber := 7%N; fl_takerSequenceNumber := 8%N;
     fl_takerIsBuy := true; fl_isMakerGlobal := false |}.

Definition sample_order : PlaceOrderLog :=
  {| po_market := market; po_trader := alice;
     po_price_inner := 2%N; po_baseAtoms_inner := 1000%N;
     po_orderSequenceNumber := 9%N; po_orderIndex := 3;
     po_lastValidSlot := 0; po_orderType := 0%N; po_isBid := true;
     po_padding := [] |}.

(** The first eight bytes of the logs "Program data: OubyA0txBKn..."
    and "Program data: nXb31S8TpHj..." that the comments in
    [handleSignature] quote *)
Definition fill_tag : list byte := [x3a; xe6; xf2; x03; x4b; x71; x04; xa9].
Definition order_tag : list byte := [x9d; x76; xf7; xd5; x2f; x13; xa4; x78].

(** The base64 texts this ledger's logs carry *)
Definition decode (s : string) : option (list byte) :=
  if (s =? "OubyA0txBKk=")%string then Some fill_tag
  else if (s =? "nXb31S8TpHg=")%string then Some order_tag
  else if (s =? "AAAA")%string then Some [x00; x00; x00]
  else None.

Definition tx_of (logs : list string) (e : option TransactionError)
  : completion (option TransactionResponse) :=
  Normal (Some (mkTx (Some (mkMeta (Some logs) e)))).

Definition ledger (sig : string) : completion (option TransactionResponse) :=
  if (sig =? "fill")%string then
    tx_of ["Program log: Instruction: Swap"; "Program data: OubyA0txBKk="] None
  else if (sig =? "order")%string then
    tx_of ["Program data: nXb31S8TpHg="] None
  else if (sig =? "failed")%string then
    tx_of ["Program data: OubyA0txBKk="] (Some (TxErr "InstructionError"))
  else if (sig =? "garbled")%string then
    tx_of ["Program data: %%%"] None
  else if (sig =? "silent")%string then
    Normal (Some (mkTx (Some (mkMeta None None))))
  else Normal None.

Definition env : Env :=
  {| getTransaction := ledger;
     atob := decode;
     fillDiscriminant := fill_tag;
     placeOrderDiscriminant := order_tag;
     FillLog_deserialize := fun _ => Normal sample_fill;
     PlaceOrderLog_deserialize := fun _ => Normal sample_order;
     convertU128 := fun _ => Float64 x00 x00 x00 x00 x00 x00 x00 x00;
     toBase58 := fun _ => "CGA7cpvuPUm232ydGxcQCjbadgZNBsboSVjG9pNryqeZ" |}.

(** A fresh [FillFeed] with one listener connected *)
Definition fresh : World :=
  {| shouldEnd := false; ended := false; lastUpdateUnix := 0;
     processingSignatures := JsSet.empty; wssOpen := true;
     clients := [1%nat]; console := []; sent := []; fills := [] |}.

(** A turn in which the remote source answers [answer], newest first *)
Definition turn (answer : list ConfirmedSignatureInfo) (now : Z) : Poll :=
  {| stopRequested := false; nowAtCheck := now;
     source := fun _ => Normal answer; nowAtUpdate := now + 1 |}.

End Ledger.

(** A feed with a crowded set *)
Module TrimExample.

(** The decimal names of the first [n] numbers *)
Definition names (n : nat) : list string :=
  map (fun i => bignum_toString (N.of_nat i)) (seq 0 n).

(** A feed whose set holds 1001 signatures *)
Definition crowded : World :=
  set_processingSignatures (names 1001) Ledger.fresh.

Definition one_turn : Poll := Ledger.turn [mkSig "fill" 12] 100.

End TrimExample.

(** Two courses of a stop-and-wait *)
Module StopExample.

(** The loop leaves during the second sleep: it closes the server and
    sets [ended]. *)
Definition loop_ends (w : World) : World := set_ended true (close_wss w).

Definition stopping : list StopTick :=
  [ {| nowAtTest := 1000; duringSleep := fun w => w |};
    {| nowAtTest := 1500; duringSleep := loop_ends |} ].

(** Nothing sets [ended]: the loop is gone. *)
Definition stuck : list StopTick :=
  [ {| nowAtTest := 1000; duringSleep := fun w => w |};
    {| nowAtTest := 1500; duringSleep := fun w => w |} ].

Definition late : StopTick :=
  {| nowAtTest := 31001; duringSleep := fun w => w |}.

End StopExample.

(** A turn in which [handleSignature] throws *)
Module ThrowExample.

Definition startup : Startup :=
  {| firstSource := fun _ => Normal [mkSig "start" 10]; nowAtStart := 0 |}.

(** The answer lists a failed transaction, then one whose log carries
    text that is not base64. *)
Definition turn : Poll :=
  Ledger.turn [mkSig "garbled" 12; mkSig "failed" 11] 100.

Definition before_garbled : World :=
  snd (processSignature Ledger.env 10 (mkSig "failed" 11) Ledger.fresh).

Definition at_throw : World :=
  snd (handleSignature Ledger.env (mkSig "garbled" 12)
         (entering (mkSig "garbled" 12) before_garbled)).

End ThrowExample.

(** What becomes of one selected line: it cannot be decoded or
    deserialized, it carries none of the two tags, or it is a fill or an
    order. *)
Inductive Classified :=
| Fails (e : JsError)
| Ignored
| Fill (f : FillLog)
| Order (o : PlaceOrderLog).

Definition classify (E : Env) (entry : string) : Classified :=
  match atob E (JsString.toString (programData_of entry)) with
  | None => Fails InvalidCharacterError
  | Some buffer =>
      if buffer_equals (firstn 8 buffer) (fillDiscriminant E) then
        match FillLog_deserialize E (skipn 8 buffer) with
        | Normal f => Fill f
        | Throw e => Fails e
        end
      else if buffer_equals (firstn 8 buffer) (placeOrderDiscriminant E) then
        match PlaceOrderLog_deserialize E (skipn 8 buffer) with
        | Normal o => Order o
        | Throw e => Fails e
        end
      else Ignored
  end.

Definition fails (c : Classified) : bool :=
  match c with Fails _ => true | _ => false end.

(** The message a line is published with, if any *)
Definition line_messages (E : Env) (sig : ConfirmedSignatureInfo)
  (entry : string) : list Message :=
  match classify E entry with
  | Fill f => [FillMessage (toFillLogResult E f (slot sig) (signature sig))]
  | Order o =>
      [PlaceOrderMessage
         (toPlaceOrderLogResult E o (slot sig) (signature sig))]
  | _ => []
  end.

(** The labels a line is counted with, if any *)
Definition line_labels (E : Env) (entry : string) : list FillLabels :=
  match classify E entry with
  | Fill f => [labels_of E f]
  | _ => []
  end.

(** What the listeners receive for some lines, line after line *)
Definition lines_sent (E : Env) (sig : ConfirmedSignatureInfo)
  (cs : list ClientId) (lines : list string) : list (ClientId * Message) :=
  flat_map (fun entry => flat_map (to_all cs) (line_messages E sig entry)) lines.

(** What the object has written to the outside is still there, in front
    of what was added. *)
Definition grows (w w' : World) : Prop :=
  (exists more, console w' = console w ++ more)
  /\ (exists more, sent w' = sent w ++ more)
  /\ (exists more, fills w' = fills w ++ more).

(** Some runs of a new feed *)
Module Runs.

Definition feed : World := newFillFeed 0 [] [].

Definition start : Cursor := mkCursor "start" 10.

(** An answer with a signature older than the cursor in the middle *)
Definition mixed : Poll :=
  Ledger.turn [mkSig "fill" 12; mkSig "old" 3; mkSig "failed" 11] 100.

Definition three_turns : list Poll :=
  [Ledger.turn [mkSig "fill" 12; mkSig "failed" 11] 100;
   Ledger.turn [] 200;
   Ledger.turn [mkSig "order" 13] 300].

(** An answer whose second signature cannot be decoded *)
Definition throwing : Poll :=
  Ledger.turn [mkSig "fill" 13; mkSig "garbled" 12; mkSig "failed" 11] 100.

(** A turn whose query the remote source rejects *)
Definition rejected : Poll :=
  {| stopRequested := false; nowAtCheck := 100;
     source := fun _ => Throw (RpcError "429 Too Many Requests");
     nowAtUpdate := 101 |}.

(** A transaction whose log carries a fill, a line that is not base64,
    and an order *)
Definition mixed_log : list string :=
  ["Program data: OubyA0txBKk="; "Program data: %%%";
   "Program data: nXb31S8TpHg="].

Definition env_mixed : Env :=
  {| getTransaction := fun _ => Ledger.tx_of mixed_log None;
     atob := Ledger.decode;
     fillDiscriminant := Ledger.fill_tag;
     placeOrderDiscriminant := Ledger.order_tag;
     FillLog_deserialize := fun _ => Normal Ledger.sample_fill;
     PlaceOrderLog_deserialize := fun _ => Normal Ledger.sample_order;
     convertU128 := convertU128 Ledger.env;
     toBase58 := toBase58 Ledger.env |}.

End Runs.

(** * Properties *)

(** ** Sets *)

Lemma JsSet_has_In (x : string) (s : JsSet.t) :
  JsSet.has x s = true <-> In x s.
Proof.
  unfold JsSet.has. rewrite existsb_exists. split.
  - intros [y [Hy Heq]]. apply String.eqb_eq in Heq. now subst.
  - intros H. exists x. split; [assumption | apply String.eqb_refl].
Qed.

Lemma JsSet_has_false (x : string) (s : JsSet.t) :
  JsSet.has x s = false <-> ~ In x s.
Proof.
  rewrite <- JsSet_has_In. destruct (JsSet.has x s); split; congruence.
Qed.

Lemma JsSet_delete_fresh (x : string) (s : JsSet.t) :
  ~ In x s -> JsSet.delete x s = s.
Proof.
  unfold JsSet.delete. induction s as [|y s IH]; intros Hx; [reflexivity|].
  cbn [filter]. destruct (String.eqb_spec x y) as [->|Hne].
  - exfalso. apply Hx. now left.
  - cbn [negb]. f_equal. apply IH. intros Hin. apply Hx. now right.
Qed.

Lemma JsSet_delete_add (x : string) (s : JsSet.t) :
  JsSet.has x s = false -> JsSet.delete x (JsSet.add x s) = s.
Proof.
  intros Hf. unfold JsSet.add. rewrite Hf. unfold JsSet.delete.
  rewrite filter_app. cbn [filter]. rewrite String.eqb_refl. cbn [negb].
  rewrite app_nil_r. apply JsSet_delete_fresh. now apply JsSet_has_false.
Qed.

Lemma JsSet_add_In (x : string) (s : JsSet.t) : In x (JsSet.add x s).
Proof.
  unfold JsSet.add. destruct (JsSet.has x s) eqn:Hh.
  - now apply JsSet_has_In.
  - apply in_or_app. right. now left.
Qed.

Lemma JsSet_add_length (x : string) (s : JsSet.t) :
  (List.length s <= List.length (JsSet.add x s) <= S (List.length s))%nat.
Proof.
  unfold JsSet.add. destruct (JsSet.has x s).
  - lia.
  - rewrite length_app. cbn [List.length]. lia.
Qed.

Lemma fold_add_NoDup (a : list string) :
  forall acc, NoDup (acc ++ a) ->
              fold_left (fun acc x => JsSet.add x acc) a acc = acc ++ a.
Proof.
  induction a as [|x a IH]; intros acc Hnd; cbn [fold_left].
  - now rewrite app_nil_r.
  - assert (Hx : JsSet.has x acc = false).
    { apply JsSet_has_false. intros Hin.
      apply NoDup_remove_2 in Hnd. apply Hnd. apply in_or_app. now left. }
    unfold JsSet.add at 2. rewrite Hx.
    rewrite IH; rewrite <- app_assoc; cbn [app]; [reflexivity | assumption].
Qed.

Lemma fold_add_length (a : list string) :
  forall acc,
    (List.length (fold_left (fun acc x => JsSet.add x acc) a acc)
     <= List.length acc + List.length a)%nat.
Proof.
  induction a as [|x a IH]; intros acc; cbn [fold_left List.length].
  - lia.
  - specialize (IH (JsSet.add x acc)).
    pose proof (JsSet_add_length x acc). lia.
Qed.

(** [new Set(array)] of an array without repetitions keeps it as it is. *)
Lemma JsSet_of_array_NoDup (a : list string) :
  NoDup a -> JsSet.of_array a = a.
Proof.
  intros Hnd. unfold JsSet.of_array, JsSet.empty.
  now rewrite fold_add_NoDup.
Qed.

Lemma JsSet_of_array_length (a : list string) :
  (JsSet.size (JsSet.of_array a) <= List.length a)%nat.
Proof.
  unfold JsSet.size, JsSet.of_array, JsSet.empty.
  pose proof (fold_add_length a []) as H. cbn [List.length] in H. lia.
Qed.

Lemma slice_last_length {A : Type} (n : nat) (a : list A) :
  List.length (slice_last n a) = Nat.min n (List.length a).
Proof. unfold slice_last. rewrite length_skipn. lia. Qed.

Lemma NoDup_skipn {A : Type} (k : nat) (a : list A) :
  NoDup a -> NoDup (skipn k a).
Proof.
  intros Hnd. rewrite <- (firstn_skipn k a) in Hnd.
  now apply NoDup_app_remove_l in Hnd.
Qed.

(** The trim never leaves more than the high-water mark. *)
Lemma trim_size_le (s : JsSet.t) :
  (JsSet.size (trim_processingSignatures s) <= HIGH_WATER)%nat.
Proof.
  unfold trim_processingSignatures.
  destruct (Nat.ltb_spec HIGH_WATER (JsSet.size s)) as [Hgt|Hle].
  - etransitivity; [apply JsSet_of_array_length|].
    unfold JsSet.to_array. rewrite slice_last_length. lia.
  - exact Hle.
Qed.

Lemma trim_over (s : JsSet.t) :
  NoDup s -> (HIGH_WATER < JsSet.size s)%nat ->
  trim_processingSignatures s = slice_last HIGH_WATER s
  /\ JsSet.size (trim_processingSignatures s) = HIGH_WATER.
Proof.
  intros Hnd Hgt. unfold trim_processingSignatures.
  destruct (Nat.ltb_spec HIGH_WATER (JsSet.size s)) as [_|Hle]; [|lia].
  unfold JsSet.to_array.
  rewrite JsSet_of_array_NoDup by (apply NoDup_skipn; exact Hnd).
  split; [reflexivity|].
  unfold JsSet.size in *. rewrite slice_last_length. lia.
Qed.

Lemma trim_under (s : JsSet.t) :
  (JsSet.size s <= HIGH_WATER)%nat -> trim_processingSignatures s = s.
Proof.
  intros Hle. unfold trim_processingSignatures.
  destruct (Nat.ltb_spec HIGH_WATER (JsSet.size s)); [lia | reflexivity].
Qed.

(** ** The monad *)

Lemma bind_normal {A B : Type} (m : M A) (k : A -> M B) w a w1 :
  m w = (Normal a, w1) -> bind m k w = k a w1.
Proof. intros H. unfold bind. now rewrite H. Qed.

Lemma bind_throw {A B : Type} (m : M A) (k : A -> M B) w e w1 :
  m w = (Throw e, w1) -> bind m k w = (Throw e, w1).
Proof. intros H. unfold bind. now rewrite H. Qed.

Lemma bind_inv_normal {A B : Type} (m : M A) (k : A -> M B) w b w' :
  bind m k w = (Normal b, w') ->
  exists a w1, m w = (Normal a, w1) /\ k a w1 = (Normal b, w').
Proof.
  unfold bind. destruct (m w) as [[a|e] w1]; intros H.
  - now exists a, w1.
  - discriminate.
Qed.

Lemma bind_inv_throw {A B : Type} (m : M A) (k : A -> M B) w e w' :
  bind m k w = (Throw e, w') ->
  m w = (Throw e, w')
  \/ exists a w1, m w = (Normal a, w1) /\ k a w1 = (Throw e, w').
Proof.
  unfold bind. destruct (m w) as [[a|e1] w1]; intros H.
  - right. now exists a, w1.
  - left. inversion H. reflexivity.
Qed.

Lemma bind_assoc {A B C : Type} (m : M A) (k : A -> M B) (h : B -> M C) w :
  bind (bind m k) h w = bind m (fun a => bind (k a) h) w.
Proof. unfold bind. destruct (m w) as [[a|e] w1]; reflexivity. Qed.

Lemma same_fields_refl w : same_fields w w.
Proof. unfold same_fields. tauto. Qed.

Lemma same_fields_trans w1 w2 w3 :
  same_fields w1 w2 -> same_fields w2 w3 -> same_fields w1 w3.
Proof. unfold same_fields. intuition congruence. Qed.

Section Keeps.

Variable R : World -> World -> Prop.
Hypothesis R_refl : forall w, R w w.
Hypothesis R_trans : forall w1 w2 w3, R w1 w2 -> R w2 w3 -> R w1 w3.

Lemma keeps_ret {A : Type} (a : A) : keeps R (ret a).
Proof. intros w. apply R_refl. Qed.

Lemma keeps_throw {A : Type} (e : JsError) : keeps R (@throw A e).
Proof. intros w. apply R_refl. Qed.

Lemma keeps_await {A : Type} (c : completion A) : keeps R (await c).
Proof. intros w. apply R_refl. Qed.

Lemma keeps_bind {A B : Type} (m : M A) (k : A -> M B) :
  keeps R m -> (forall a, keeps R (k a)) -> keeps R (bind m k).
Proof.
  intros Hm Hk w. unfold bind. specialize (Hm w).
  destruct (m w) as [[a|e] w1]; cbn [snd] in *.
  - eapply R_trans; [exact Hm | apply Hk].
  - exact Hm.
Qed.

Lemma keeps_for_of {A : Type} (xs : list A) (body : A -> M unit) :
  (forall x, keeps R (body x)) -> keeps R (for_of xs body).
Proof.
  intros Hb. induction xs as [|x xs IH]; cbn [for_of].
  - apply keeps_ret.
  - apply keeps_bind; [apply Hb | intros _; exact IH].
Qed.

End Keeps.

Lemma keeps_console_log (l : LogLine) : keeps same_fields (console_log l).
Proof. intros w. cbn. unfold same_fields. cbn. tauto. Qed.

Lemma keeps_broadcast (msg : Message) : keeps same_fields (broadcast msg).
Proof. intros w. cbn. unfold same_fields. cbn. tauto. Qed.

Lemma keeps_fills_inc (l : FillLabels) : keeps same_fields (fills_inc l).
Proof. intros w. cbn. unfold same_fields. cbn. tauto. Qed.

Lemma keeps_weaken {A : Type} (R R' : World -> World -> Prop) (m : M A) :
  (forall w w', R w w' -> R' w w') -> keeps R m -> keeps R' m.
Proof. intros Hsub Hm w. apply Hsub, Hm. Qed.

Ltac keeps_same_fields :=
  repeat first
    [ apply (keeps_ret same_fields same_fields_refl)
    | apply (keeps_throw same_fields same_fields_refl)
    | apply (keeps_await same_fields same_fields_refl)
    | apply keeps_console_log
    | apply keeps_broadcast
    | apply keeps_fills_inc
    | apply (keeps_bind same_fields same_fields_trans); [| intros ?]
    | apply (keeps_for_of same_fields same_fields_refl same_fields_trans);
      intros ? ].

(** ** [handleSignature] touches no field of the object *)

Section HandleSignature.

Variable E : Env.

Lemma keeps_decode_programData (programData : option string) :
  keeps same_fields (decode_programData E programData).
Proof.
  unfold decode_programData.
  destruct (atob E (JsString.toString programData)); keeps_same_fields.
Qed.

Lemma keeps_handleProgramData (sig : ConfirmedSignatureInfo) (entry : string) :
  keeps same_fields (handleProgramData E sig entry).
Proof.
  unfold handleProgramData, handleBuffer.
  apply (keeps_bind same_fields same_fields_trans).
  - apply keeps_decode_programData.
  - intros buffer.
    destruct (buffer_equals (firstn 8 buffer) (fillDiscriminant E));
      [| destruct (buffer_equals (firstn 8 buffer) (placeOrderDiscriminant E))];
      keeps_same_fields.
Qed.

Lemma keeps_handleSignature (sig : ConfirmedSignatureInfo) :
  keeps same_fields (handleSignature E sig).
Proof.
  unfold handleSignature. keeps_same_fields.
  match goal with |- keeps _ (match tx_logMessages ?t with _ => _ end) =>
    destruct (tx_logMessages t) as [[m messages]|] end;
    [| keeps_same_fields].
  destruct (err m); [keeps_same_fields|].
  destruct (List.length (programDatas_of messages) =? 0)%nat;
    [keeps_same_fields|].
  apply (keeps_for_of same_fields same_fields_refl same_fields_trans).
  intros entry. apply keeps_handleProgramData.
Qed.

Lemma handleSignature_fields sig w r w' :
  handleSignature E sig w = (r, w') -> same_fields w w'.
Proof.
  intros H. pose proof (keeps_handleSignature sig w) as K.
  now rewrite H in K.
Qed.

(** *** One signature of a batch *)

Lemma processSignature_in_set ls sig w :
  JsSet.has (signature sig) (processingSignatures w) = true ->
  processSignature E ls sig w = (Normal tt, w).
Proof.
  intros Hh. unfold processSignature, bind, get. now rewrite Hh.
Qed.

Lemma processSignature_old_slot ls sig w :
  slot sig < ls -> processSignature E ls sig w = (Normal tt, w).
Proof.
  intros Hlt. unfold processSignature, bind, get.
  destruct (JsSet.has (signature sig) (processingSignatures w)); [reflexivity|].
  apply Z.ltb_lt in Hlt. now rewrite Hlt.
Qed.

Lemma processSignature_handles ls sig w :
  JsSet.has (signature sig) (processingSignatures w) = false ->
  ls <= slot sig ->
  processSignature E ls sig w =
  match handleSignature E sig (entering sig w) with
  | (Normal _, w2) => (Normal tt, leaving sig w2)
  | (Throw e, w2) => (Throw e, w2)
  end.
Proof.
  intros Hh Hle. unfold processSignature, bind, get, modify.
  rewrite Hh. apply Z.ltb_ge in Hle. rewrite Hle.
  fold (entering sig w).
  destruct (handleSignature E sig (entering sig w)) as [[[]|e] w2];
    reflexivity.
Qed.

Lemma leaving_entering sig w w2 :
  JsSet.has (signature sig) (processingSignatures w) = false ->
  same_fields (entering sig w) w2 ->
  same_fields w (leaving sig w2).
Proof.
  intros Hh (H1 & H2 & H3 & H4 & H5 & H6).
  unfold same_fields, leaving, entering in *. cbn in *.
  rewrite H4. rewrite JsSet_delete_add by exact Hh. tauto.
Qed.

(** A signature that was processed, or skipped, leaves the set and the
    other fields as they were. *)
Lemma processSignature_normal ls sig w w' :
  processSignature E ls sig w = (Normal tt, w') -> same_fields w w'.
Proof.
  destruct (JsSet.has (signature sig) (processingSignatures w)) eqn:Hh.
  - rewrite processSignature_in_set by exact Hh.
    intros H. inversion H. apply same_fields_refl.
  - destruct (Z.lt_ge_cases (slot sig) ls) as [Hlt|Hge].
    + rewrite processSignature_old_slot by exact Hlt.
      intros H. inversion H. apply same_fields_refl.
    + rewrite processSignature_handles by assumption.
      destruct (handleSignature E sig (entering sig w)) as [[[]|e] w2] eqn:Hs;
        intros H; inversion H; subst.
      apply leaving_entering; [exact Hh|].
      eapply handleSignature_fields; exact Hs.
Qed.

(** A signature whose handling throws stays in the set. *)
Lemma processSignature_throw ls sig w e w' :
  processSignature E ls sig w = (Throw e, w') ->
  JsSet.has (signature sig) (processingSignatures w) = false
  /\ ls <= slot sig
  /\ handleSignature E sig (entering sig w) = (Throw e, w')
  /\ In (signature sig) (processingSignatures w').
Proof.
  destruct (JsSet.has (signature sig) (processingSignatures w)) eqn:Hh.
  - rewrite processSignature_in_set by exact Hh. discriminate.
  - destruct (Z.lt_ge_cases (slot sig) ls) as [Hlt|Hge].
    + rewrite processSignature_old_slot by exact Hlt. discriminate.
    + rewrite processSignature_handles by assumption.
      destruct (handleSignature E sig (entering sig w)) as [[[]|e1] w2] eqn:Hs;
        intros H; inversion H; subst.
      split; [reflexivity | split; [exact Hge | split; [reflexivity|]]].
      apply handleSignature_fields in Hs.
      destruct Hs as (_ & _ & _ & Hset & _). rewrite Hset.
      cbn. apply JsSet_add_In.
Qed.

(** *** A batch *)

Lemma for_of_app {A : Type} (pre post : list A) (body : A -> M unit) w :
  for_of (pre ++ post) body w = (for_of pre body ;; for_of post body) w.
Proof.
  revert w. induction pre as [|x pre IH]; intros w; cbn [app for_of].
  - reflexivity.
  - rewrite bind_assoc. unfold bind in *.
    destruct (body x w) as [[[]|e] w1]; [|reflexivity].
    apply IH.
Qed.

Lemma batch_normal ls batch w w' :
  for_of batch (processSignature E ls) w = (Normal tt, w') ->
  same_fields w w'.
Proof.
  revert w. induction batch as [|sig batch IH]; intros w; cbn [for_of].
  - intros H. inversion H. apply same_fields_refl.
  - intros H. apply bind_inv_normal in H.
    destruct H as ([] & w1 & H1 & H2).
    eapply same_fields_trans.
    + eapply processSignature_normal; exact H1.
    + apply IH; exact H2.
Qed.

Lemma batch_throw ls batch w e w' :
  for_of batch (processSignature E ls) w = (Throw e, w') ->
  exists pre sig post w1,
    batch = pre ++ sig :: post
    /\ for_of pre (processSignature E ls) w = (Normal tt, w1)
    /\ processSignature E ls sig w1 = (Throw e, w').
Proof.
  revert w. induction batch as [|sig batch IH]; intros w; cbn [for_of].
  - discriminate.
  - intros H. apply bind_inv_throw in H. destruct H as [H|([] & w1 & H1 & H2)].
    + exists [], sig, batch, w.
      split; [reflexivity | split; [reflexivity | exact H]].
    + destruct (IH _ H2) as (pre & s & post & w2 & -> & Hpre & Hs).
      exists (sig :: pre), s, post, w2.
      split; [reflexivity | split; [| exact Hs]].
      cbn [for_of]. rewrite (bind_normal _ _ _ _ _ H1). exact Hpre.
Qed.

Lemma processSignature_total ls sig w :
  (forall w, exists w', handleSignature E sig w = (Normal tt, w')) ->
  exists w', processSignature E ls sig w = (Normal tt, w').
Proof.
  intros Hok.
  destruct (JsSet.has (signature sig) (processingSignatures w)) eqn:Hh.
  - exists w. now apply processSignature_in_set.
  - destruct (Z.lt_ge_cases (slot sig) ls) as [Hlt|Hge].
    + exists w. now apply processSignature_old_slot.
    + rewrite processSignature_handles by assumption.
      destruct (Hok (entering sig w)) as [w2 ->]. now eexists.
Qed.

Lemma batch_total ls batch :
  handles_all E batch ->
  forall w, exists w', for_of batch (processSignature E ls) w = (Normal tt, w').
Proof.
  induction batch as [|sig batch IH]; intros Hall w; cbn [for_of].
  - now exists w.
  - destruct (processSignature_total ls sig w) as [w1 H1].
    { apply Hall. now left. }
    destruct (IH (fun s Hs => Hall s (or_intror Hs)) w1) as [w2 H2].
    exists w2. rewrite (bind_normal _ _ _ _ _ H1). exact H2.
Qed.

End HandleSignature.

(** ** The signatures handed to [handleSignature] *)

Lemma same_handled_refl w : same_handled w w.
Proof. reflexivity. Qed.

Lemma same_handled_trans w1 w2 w3 :
  same_handled w1 w2 -> same_handled w2 w3 -> same_handled w1 w3.
Proof. unfold same_handled. congruence. Qed.

Lemma handled_console_log (l : LogLine) (w : World) :
  handled (snd (console_log l w)) = handled w ++ handled_of_line l.
Proof.
  unfold handled. cbn. rewrite flat_map_app. cbn [flat_map].
  now rewrite app_nil_r.
Qed.

Lemma keeps_handled_console_log (l : LogLine) :
  handled_of_line l = [] -> keeps same_handled (console_log l).
Proof.
  intros Hl w. red. rewrite handled_console_log, Hl. apply app_nil_r.
Qed.

Lemma keeps_handled_modify (f : World -> World) :
  (forall w, console (f w) = console w) -> keeps same_handled (modify f).
Proof. intros Hf w. red. unfold handled. cbn. now rewrite Hf. Qed.

Ltac keeps_same_handled :=
  repeat first
    [ apply (keeps_ret same_handled same_handled_refl)
    | apply (keeps_throw same_handled same_handled_refl)
    | apply (keeps_await same_handled same_handled_refl)
    | apply keeps_handled_console_log; reflexivity
    | apply keeps_handled_modify; intros ?; reflexivity
    | apply (keeps_bind same_handled same_handled_trans); [| intros ?] ].

Lemma handled_since_app w w' extra :
  handled w' = handled w ++ extra -> handled_since w w' = extra.
Proof.
  intros H. unfold handled_since. rewrite H.
  rewrite skipn_app, skipn_all, Nat.sub_diag. reflexivity.
Qed.

Lemma last_elem_snoc {A : Type} (xs : list A) (x : A) :
  last_elem (xs ++ [x]) = Some x.
Proof.
  unfold last_elem. rewrite length_app. cbn [List.length].
  rewrite nth_error_app2 by lia.
  replace (List.length xs + 1 - 1 - List.length xs)%nat with 0%nat by lia.
  reflexivity.
Qed.

Lemma last_elem_rev {A : Type} (x : A) (xs : list A) :
  last_elem (rev (x :: xs)) = Some x.
Proof. cbn [rev]. apply last_elem_snoc. Qed.

Section Handled.

Variable E : Env.

Lemma keeps_handled_handleProgramData sig entry :
  keeps same_handled (handleProgramData E sig entry).
Proof.
  unfold handleProgramData, handleBuffer.
  apply (keeps_bind same_handled same_handled_trans).
  - unfold decode_programData.
    destruct (atob E (JsString.toString (programData_of entry)));
      keeps_same_handled.
  - intros buffer. unfold broadcast, fills_inc.
    destruct (buffer_equals (firstn 8 buffer) (fillDiscriminant E));
      [| destruct (buffer_equals (firstn 8 buffer) (placeOrderDiscriminant E))];
      keeps_same_handled.
Qed.

(** [handleSignature] records its argument, once, whatever happens next. *)
Lemma handled_handleSignature sig w :
  handled (snd (handleSignature E sig w)) = handled w ++ [sig].
Proof.
  unfold handleSignature.
  set (rest := bind (await (getTransaction E (signature sig))) _).
  assert (Hrest : keeps same_handled rest).
  { subst rest. apply (keeps_bind same_handled same_handled_trans);
      [keeps_same_handled|]. intros tx.
    destruct (tx_logMessages tx) as [[m messages]|]; [|keeps_same_handled].
    destruct (err m); [keeps_same_handled|].
    destruct (List.length (programDatas_of messages) =? 0)%nat;
      [keeps_same_handled|].
    apply (keeps_for_of same_handled same_handled_refl same_handled_trans).
    intros entry. apply keeps_handled_handleProgramData. }
  unfold bind at 1.
  destruct (console_log (LogHandling (signature sig) (slot sig)) w)
    as [[[]|e] w1] eqn:Hlog; [|discriminate].
  specialize (Hrest w1). red in Hrest.
  destruct (rest w1) as [r w2]; cbn [snd] in *. rewrite Hrest.
  pose proof (handled_console_log (LogHandling (signature sig) (slot sig)) w) as Hl.
  rewrite Hlog in Hl. cbn [snd] in Hl. rewrite Hl.
  destruct sig. reflexivity.
Qed.

Lemma handled_processSignature ls sig w :
  handled (snd (processSignature E ls sig w)) =
  handled w ++ (if passes (processingSignatures w) ls sig then [sig] else []).
Proof.
  unfold passes.
  destruct (JsSet.has (signature sig) (processingSignatures w)) eqn:Hh.
  - rewrite processSignature_in_set by exact Hh. cbn. now rewrite app_nil_r.
  - destruct (Z.lt_ge_cases (slot sig) ls) as [Hlt|Hge].
    + rewrite processSignature_old_slot by exact Hlt.
      apply Z.leb_gt in Hlt. rewrite Hlt. cbn. now rewrite app_nil_r.
    + rewrite processSignature_handles by assumption.
      apply Z.leb_le in Hge. rewrite Hge. cbn [negb andb].
      pose proof (handled_handleSignature sig (entering sig w)) as Hs.
      destruct (handleSignature E sig (entering sig w)) as [[[]|e] w2];
        cbn [snd] in *; exact Hs.
Qed.

(** A batch that completes has processed, in order, exactly the
    elements that pass the two guards; each element once. *)
Lemma handled_batch ls batch :
  forall w w',
    for_of batch (processSignature E ls) w = (Normal tt, w') ->
    handled w' = handled w ++ filter (passes (processingSignatures w) ls) batch.
Proof.
  induction batch as [|sig batch IH]; intros w w' H; cbn [for_of filter] in *.
  - inversion H. now rewrite app_nil_r.
  - apply bind_inv_normal in H. destruct H as ([] & w1 & H1 & H2).
    pose proof (handled_processSignature ls sig w) as Hs.
    rewrite H1 in Hs. cbn [snd] in Hs.
    apply processSignature_normal in H1.
    destruct H1 as (_ & _ & _ & Hset & _).
    rewrite (IH _ _ H2), Hset, Hs, <- app_assoc. f_equal.
    destruct (passes (processingSignatures w) ls sig); reflexivity.
Qed.

End Handled.

(** ** One turn of the poll loop *)

Section PollOnce.

Variable E : Env.

(** A turn whose query is rejected throws at once. *)
Lemma pollOnce_rejected p cur w e :
  source p (since cur) = Throw e -> pollOnce E p cur w = (Throw e, w).
Proof.
  intros H. unfold pollOnce. fold (since cur). unfold bind at 1, await.
  now rewrite H.
Qed.

Lemma pollOnce_empty p cur w :
  source p (since cur) = Normal [] -> pollOnce E p cur w = (Normal cur, w).
Proof.
  intros H. unfold pollOnce. fold (since cur). unfold bind at 1, await.
  now rewrite H.
Qed.

(** A turn that completes had its query answered. *)
Lemma pollOnce_answered p cur w cur' w' :
  pollOnce E p cur w = (Normal cur', w') ->
  exists answer, source p (since cur) = Normal answer.
Proof.
  destruct (source p (since cur)) as [answer|e] eqn:Ha.
  - now exists answer.
  - rewrite pollOnce_rejected with (e := e) by exact Ha. discriminate.
Qed.

Lemma pollOnce_nonempty p cur w newest older :
  source p (since cur) = Normal (newest :: older) ->
  pollOnce E p cur w =
  match for_of (rev (newest :: older)) (processSignature E (lastSlot cur)) w with
  | (Normal _, w1) =>
      (Normal (cursor_at newest),
       batch_end p newest (List.length (rev (newest :: older))) w1)
  | (Throw e, w1) => (Throw e, w1)
  end.
Proof.
  intros H. unfold pollOnce. fold (since cur). unfold bind at 1, await.
  rewrite H. cbv zeta.
  destruct (Nat.ltb_spec (List.length (rev (newest :: older))) 1) as [Hlt|_].
  { rewrite length_rev in Hlt. cbn [List.length] in Hlt. lia. }
  rewrite last_elem_rev. unfold bind at 1.
  destruct (for_of (rev (newest :: older)) (processSignature E (lastSlot cur)) w)
    as [[[]|e] w1]; reflexivity.
Qed.

Lemma batch_end_fields p newest n w :
  lastUpdateUnix (batch_end p newest n w) = nowAtUpdate p
  /\ processingSignatures (batch_end p newest n w)
     = trim_processingSignatures (processingSignatures w)
  /\ shouldEnd (batch_end p newest n w) = shouldEnd w
  /\ ended (batch_end p newest n w) = ended w
  /\ wssOpen (batch_end p newest n w) = wssOpen w
  /\ clients (batch_end p newest n w) = clients w
  /\ sent (batch_end p newest n w) = sent w
  /\ fills (batch_end p newest n w) = fills w
  /\ handled (batch_end p newest n w) = handled w.
Proof.
  unfold batch_end, handled. cbn. rewrite flat_map_app. cbn.
  rewrite app_nil_r. repeat split.
Qed.

(** A turn that completes on a non-empty answer: where the cursor and
    the fields of the object end up. *)
Lemma pollOnce_normal p cur w cur' w' newest older :
  source p (since cur) = Normal (newest :: older) ->
  pollOnce E p cur w = (Normal cur', w') ->
  cur' = cursor_at newest
  /\ lastUpdateUnix w' = nowAtUpdate p
  /\ processingSignatures w'
     = trim_processingSignatures (processingSignatures w)
  /\ shouldEnd w' = shouldEnd w /\ ended w' = ended w
  /\ wssOpen w' = wssOpen w
  /\ handled w' = handled w
       ++ filter (passes (processingSignatures w) (lastSlot cur))
                 (rev (newest :: older)).
Proof.
  intros Ha H. rewrite (pollOnce_nonempty _ _ _ _ _ Ha) in H.
  destruct (for_of (rev (newest :: older)) (processSignature E (lastSlot cur)) w)
    as [[[]|e] w1] eqn:Hb; [|discriminate].
  injection H as <- <-.
  pose proof (handled_batch E _ _ _ _ Hb) as Hh.
  apply batch_normal in Hb.
  destruct Hb as (H1 & H2 & H3 & H4 & H5 & H6).
  destruct (batch_end_fields p newest (List.length (rev (newest :: older))) w1)
    as (B1 & B2 & B3 & B4 & B5 & B6 & B7 & B8 & B9).
  cbn [rev] in *.
  rewrite B1, B2, B3, B4, B5, B9, H1, H2, H4, H5, Hh. repeat split.
Qed.

(** A turn whose query is answered completes when no signature of its
    batch makes [handleSignature] throw. *)
Lemma pollOnce_total p cur w answer :
  source p (since cur) = Normal answer ->
  handles_all E (rev answer) ->
  exists cur' w', pollOnce E p cur w = (Normal cur', w').
Proof.
  intros Ha Hall. destruct answer as [|newest older].
  - exists cur, w. now apply pollOnce_empty.
  - rewrite (pollOnce_nonempty _ _ _ _ _ Ha).
    destruct (batch_total E (lastSlot cur) _ Hall w) as [w1 ->].
    now eexists _, _.
Qed.

(** A turn that throws either had its query rejected, and has done
    nothing, or was handling a signature, which it leaves in the set. *)
Lemma pollOnce_throw p cur w e w' :
  pollOnce E p cur w = (Throw e, w') ->
  (source p (since cur) = Throw e /\ w' = w)
  \/ exists answer pre sig post w1,
       source p (since cur) = Normal answer
       /\ rev answer = pre ++ sig :: post
       /\ for_of pre (processSignature E (lastSlot cur)) w = (Normal tt, w1)
       /\ handleSignature E sig (entering sig w1) = (Throw e, w')
       /\ In (signature sig) (processingSignatures w').
Proof.
  intros H. destruct (source p (since cur)) as [[|newest older]|e0] eqn:Ha.
  - rewrite pollOnce_empty in H by exact Ha. discriminate.
  - right. rewrite (pollOnce_nonempty _ _ _ _ _ Ha) in H.
    destruct (for_of (rev (newest :: older)) (processSignature E (lastSlot cur)) w)
      as [[[]|e1] w1] eqn:Hb; [discriminate|].
    inversion H; subst e1 w1. clear H.
    apply batch_throw in Hb.
    destruct Hb as (pre & sig & post & w1 & Hsplit & Hpre & Hs).
    apply processSignature_throw in Hs. destruct Hs as (_ & _ & Hs & Hin).
    exists (newest :: older), pre, sig, post, w1. auto.
  - left. rewrite pollOnce_rejected with (e := e0) in H by exact Ha.
    injection H as <- <-. auto.
Qed.

End PollOnce.

(** ** Transactions that are passed over *)

Lemma handleSignature_passed_over (E : Env) (sig : ConfirmedSignatureInfo) :
  passed_over (getTransaction E (signature sig)) = true ->
  forall w, exists w',
    handleSignature E sig w = (Normal tt, w')
    /\ sent w' = sent w /\ fills w' = fills w.
Proof.
  intros Hp w. unfold handleSignature, bind, await, console_log, modify.
  destruct (getTransaction E (signature sig)) as [[[[m|]]|]|e];
    cbn in Hp |- *; try discriminate;
    try (eexists; split; [reflexivity | split; reflexivity]).
  destruct m as [[[|l msgs]|] [e|]]; cbn in Hp |- *; try discriminate;
    eexists; (split; [reflexivity | split; reflexivity]).
Qed.

(** ** Decimal strings *)

Lemma N_to_uint_nonnil (n : N) : N.to_uint n <> Decimal.Nil.
Proof.
  destruct n as [|p]; cbn.
  - discriminate.
  - apply DecimalPos.Unsigned.to_uint_nonnil.
Qed.

(** [bignum.toString()] writes decimal digits from which the value is read
    back. *)
Lemma parse_bignum_toString (n : N) :
  parse_decimal (bignum_toString n) = Some n.
Proof.
  unfold parse_decimal, bignum_toString.
  rewrite NilZero.usu by apply N_to_uint_nonnil.
  cbn [option_map]. now rewrite DecimalN.Unsigned.of_to.
Qed.

Lemma bignum_toString_inj (n m : N) :
  bignum_toString n = bignum_toString m -> n = m.
Proof.
  intros H. apply (f_equal parse_decimal) in H.
  rewrite !parse_bignum_toString in H. congruence.
Qed.

(** ** The trim of [processingSignatures] *)

Lemma NoDup_trim (s : JsSet.t) : NoDup s -> NoDup (trim_processingSignatures s).
Proof.
  intros Hnd. unfold trim_processingSignatures.
  destruct (HIGH_WATER <? JsSet.size s)%nat; [|exact Hnd].
  unfold JsSet.to_array.
  rewrite JsSet_of_array_NoDup; apply NoDup_skipn; exact Hnd.
Qed.

(** ** The loop and its exit *)

Lemma same_server_refl w : same_server w w.
Proof. split; reflexivity. Qed.

Lemma same_server_trans w1 w2 w3 :
  same_server w1 w2 -> same_server w2 w3 -> same_server w1 w3.
Proof. unfold same_server. intuition congruence. Qed.

Lemma same_fields_server w w' : same_fields w w' -> same_server w w'.
Proof. unfold same_fields, same_server. tauto. Qed.

Lemma keeps_server_modify (f : World -> World) :
  (forall w, ended (f w) = ended w /\ wssOpen (f w) = wssOpen w) ->
  keeps same_server (modify f).
Proof. intros Hf w. apply Hf. Qed.

Lemma set_shouldEnd_same (w : World) (b : bool) :
  shouldEnd w = b -> set_shouldEnd b w = w.
Proof. intros <-. destruct w. reflexivity. Qed.

Ltac keeps_same_server :=
  repeat first
    [ apply (keeps_ret same_server same_server_refl)
    | apply (keeps_throw same_server same_server_refl)
    | apply (keeps_await same_server same_server_refl)
    | apply keeps_server_modify; intros ?; split; reflexivity
    | apply (keeps_bind same_server same_server_trans); [| intros ?] ].

Section Loop.

Variable E : Env.

Lemma keeps_server_processSignature ls sig :
  keeps same_server (processSignature E ls sig).
Proof.
  unfold processSignature.
  apply (keeps_bind same_server same_server_trans);
    [intros w; apply same_server_refl|].
  intros w0.
  destruct (JsSet.has (signature sig) (processingSignatures w0));
    [keeps_same_server|].
  destruct (slot sig <? ls); [keeps_same_server|].
  apply (keeps_bind same_server same_server_trans); [keeps_same_server|].
  intros _. apply (keeps_bind same_server same_server_trans);
    [|intros _; keeps_same_server].
  apply (keeps_weaken same_fields same_server);
    [exact same_fields_server | apply keeps_handleSignature].
Qed.

Lemma keeps_server_pollOnce p cur : keeps same_server (pollOnce E p cur).
Proof.
  unfold pollOnce.
  apply (keeps_bind same_server same_server_trans); [keeps_same_server|].
  intros answer. cbv zeta.
  destruct (List.length (rev answer) <? 1)%nat; [keeps_same_server|].
  apply (keeps_bind same_server same_server_trans).
  - apply (keeps_for_of same_server same_server_refl same_server_trans).
    intros sig. apply keeps_server_processSignature.
  - intros _. destruct (last_elem (rev answer)); [|keeps_same_server].
    unfold console_log. keeps_same_server.
Qed.

Lemma keeps_server_pollLoop endTime polls :
  forall cur, keeps same_server (pollLoop E endTime polls cur).
Proof.
  induction polls as [|p polls IH]; intros cur; cbn [pollLoop].
  - keeps_same_server.
  - apply (keeps_bind same_server same_server_trans); [keeps_same_server|].
    intros _. apply (keeps_bind same_server same_server_trans);
      [intros w; apply same_server_refl|].
    intros w0.
    destruct (negb (shouldEnd w0) && (nowAtCheck p <? endTime));
      [|keeps_same_server].
    apply (keeps_bind same_server same_server_trans);
      [apply keeps_server_pollOnce | intros cur'; apply IH].
Qed.

(** The turns of the loop in two parts *)
Lemma pollLoop_app endTime before after cur w :
  pollLoop E endTime (before ++ after) cur w =
  match pollLoop E endTime before cur w with
  | (Normal (false, cur1), w1) => pollLoop E endTime after cur1 w1
  | other => other
  end.
Proof.
  revert cur w. induction before as [|p before IH]; intros cur w;
    cbn [app pollLoop].
  - reflexivity.
  - unfold bind, modify, get.
    match goal with |- context [if ?c then _ else _] => destruct c end.
    + destruct (pollOnce E p cur _) as [[cur'|e] w1]; [apply IH | reflexivity].
    + reflexivity.
Qed.

(** A turn whose loop condition holds *)
Lemma pollLoop_step endTime p rest cur w :
  shouldEnd w || stopRequested p = false ->
  nowAtCheck p < endTime ->
  pollLoop E endTime (p :: rest) cur w =
  (cur' <- pollOnce E p cur ;; pollLoop E endTime rest cur') w.
Proof.
  intros Hrun Htime. cbn [pollLoop].
  unfold bind at 1 2, modify, get. cbn [shouldEnd set_shouldEnd].
  rewrite Hrun. apply Z.ltb_lt in Htime. rewrite Htime. cbn [negb andb].
  rewrite set_shouldEnd_same; [reflexivity|].
  destruct (shouldEnd w); [discriminate | reflexivity].
Qed.

(** A turn whose loop condition fails ends the loop. *)
Lemma pollLoop_exit endTime p rest cur w :
  shouldEnd w || stopRequested p = true \/ endTime <= nowAtCheck p ->
  pollLoop E endTime (p :: rest) cur w
  = (Normal (true, cur), set_shouldEnd (shouldEnd w || stopRequested p) w).
Proof.
  intros Hstop. cbn [pollLoop].
  unfold bind, modify, get. cbn [shouldEnd set_shouldEnd].
  destruct Hstop as [->|Hlate]; [reflexivity|].
  apply Z.ltb_ge in Hlate. rewrite Hlate. now rewrite andb_false_r.
Qed.

(** Whatever way [parseLogs] throws, it has neither closed the server
    nor set [ended]. *)
Lemma parseLogs_throw_server endEarly s polls w e w' :
  parseLogs E endEarly s polls w = (Throw e, w') -> same_server w w'.
Proof.
  unfold parseLogs. unfold bind at 1, await.
  destruct (firstSource s _) as [answer|e0].
  2:{ intros H. inversion H. apply same_server_refl. }
  destruct (nth_error answer 0) as [first|].
  - intros H. apply bind_inv_throw in H.
    destruct H as [H|([exited cur1] & w1 & H1 & H2)].
    + pose proof (keeps_server_pollLoop
                    (endTime_of endEarly (nowAtStart s)) polls
                    (cursor_at first) w) as K.
      unfold cursor_at in K. now rewrite H in K.
    + destruct exited; cbn in H2; discriminate.
  - intros H. inversion H. apply same_server_refl.
Qed.

(** When [parseLogs] returns because the loop ended, the server is
    closed and [ended] is set. *)
Lemma parseLogs_exit endEarly s polls w cur w' :
  parseLogs E endEarly s polls w = (Normal (true, cur), w') ->
  ended w' = true /\ wssOpen w' = false.
Proof.
  unfold parseLogs. unfold bind at 1, await.
  destruct (firstSource s _) as [answer|e0]; [|discriminate].
  destruct (nth_error answer 0) as [first|]; [|discriminate].
  intros H. apply bind_inv_normal in H.
  destruct H as ([exited cur1] & w1 & H1 & H2).
  destruct exited; cbn in H2; inversion H2; subst. split; reflexivity.
Qed.

(** [parseLogs] once the first query is answered with a signature *)
Lemma parseLogs_started endEarly s polls w first others :
  firstSource s most_recent_one = Normal (first :: others) ->
  parseLogs E endEarly s polls w =
  (r <- pollLoop E (endTime_of endEarly (nowAtStart s)) polls
                 (cursor_at first) ;;
   if fst r then
     console_log LogEndedLoop ;;
     modify close_wss ;;
     modify (set_ended true) ;;
     ret r
   else ret r) w.
Proof.
  intros H. unfold parseLogs. fold most_recent_one.
  unfold bind at 1, await. now rewrite H.
Qed.

End Loop.

(** Over any number of turns [lastSlot] does not decrease when the
    answers ascend. *)
Lemma cursor_ascends_with_answers (E : Env) (endTime : Z) (polls : list Poll) :
  forall cur w r cur' w',
    answers_ascend (lastSlot cur) polls ->
    pollLoop E endTime polls cur w = (Normal (r, cur'), w') ->
    lastSlot cur <= lastSlot cur'.
Proof.
  induction polls as [|p polls IH]; intros cur w r cur' w' Hasc H.
  - cbn in H. injection H as _ <- _. lia.
  - destruct (shouldEnd w || stopRequested p) eqn:Hs.
    { rewrite pollLoop_exit in H by now left. injection H as _ <- _. lia. }
    destruct (Z.lt_ge_cases (nowAtCheck p) endTime) as [Hlt|Hge].
    2:{ rewrite pollLoop_exit in H by now right. injection H as _ <- _. lia. }
    rewrite pollLoop_step in H by assumption.
    apply bind_inv_normal in H. destruct H as (cur1 & w1 & H1 & H2).
    cbn [answers_ascend] in Hasc. specialize (Hasc (since cur)).
    destruct (source p (since cur)) as [[|newest older]|e] eqn:Ha.
    + rewrite pollOnce_empty in H1 by exact Ha. injection H1 as <- <-.
      eapply IH; eassumption.
    + destruct (pollOnce_normal E _ _ _ _ _ _ _ Ha H1) as (-> & _).
      destruct Hasc as [Hlo Hrest].
      etransitivity; [exact Hlo|]. eapply (IH (cursor_at newest)); eassumption.
    + rewrite pollOnce_rejected with (e := e) in H1 by exact Ha. discriminate.
Qed.

(** A loop that finds the stop flag raised at its test leaves: it closes
    the server and sets [ended]. *)
Lemma parseLogs_stops_on_request (E : Env) (endEarly : bool) (s : Startup)
  (first : ConfirmedSignatureInfo) (others : list ConfirmedSignatureInfo)
  (p : Poll) (rest : list Poll) (w : World) :
  firstSource s most_recent_one = Normal (first :: others) ->
  shouldEnd w || stopRequested p = true ->
  exists w',
    parseLogs E endEarly s (p :: rest) w = (Normal (true, cursor_at first), w')
    /\ ended w' = true /\ wssOpen w' = false.
Proof.
  intros Hfirst Hstop. rewrite (parseLogs_started E _ _ _ _ _ _ Hfirst).
  rewrite (bind_normal _ _ _ _ _
             (pollLoop_exit E _ p rest (cursor_at first) w (or_introl Hstop))).
  cbn. eexists. split; [reflexivity | split; reflexivity].
Qed.

(** ** The waiting loop *)

Lemma stopWait_ended start ticks w :
  ended w = true -> stopWait start ticks w = (Resolved, w).
Proof. intros H. destruct ticks; cbn [stopWait]; now rewrite H. Qed.

Lemma stopWait_resolves start pre :
  forall post w,
    Forall (in_time start) pre ->
    ended (after_sleeps pre w) = true ->
    fst (stopWait start (pre ++ post) w) = Resolved.
Proof.
  induction pre as [|t pre IH]; intros post w Hin Hend; cbn [app].
  - cbn in Hend. now rewrite stopWait_ended.
  - cbn [stopWait]. destruct (ended w) eqn:Hw; [reflexivity|].
    inversion Hin as [|? ? Ht Hpre]; subst. unfold in_time in Ht.
    destruct (Z.gtb_spec (nowAtTest t - start) TIMEOUT) as [Hgt|_]; [lia|].
    apply IH; assumption.
Qed.

Lemma stopWait_times_out start pre :
  forall t post w,
    Forall (in_time start) pre ->
    (forall k, (k <= List.length pre)%nat ->
               ended (after_sleeps (firstn k pre) w) = false) ->
    nowAtTest t - start > TIMEOUT ->
    stopWait start (pre ++ t :: post) w
    = (Rejected stop_error, after_sleeps pre w).
Proof.
  induction pre as [|t0 pre IH]; intros t post w Hin Hrun Hlate; cbn [app];
    pose proof (Hrun 0%nat (Nat.le_0_l _)) as Hw;
    cbn [firstn after_sleeps fold_left] in Hw.
  - cbn [stopWait after_sleeps fold_left]. rewrite Hw.
    destruct (Z.gtb_spec (nowAtTest t - start) TIMEOUT) as [_|Hle];
      [reflexivity | lia].
  - cbn [stopWait]. rewrite Hw.
    inversion Hin as [|? ? Ht Hpre]; subst. unfold in_time in Ht.
    destruct (Z.gtb_spec (nowAtTest t0 - start) TIMEOUT) as [Hgt|_]; [lia|].
    cbn [after_sleeps fold_left]. apply IH; try assumption.
    intros k Hk. apply (Hrun (S k)). cbn [List.length]. lia.
Qed.

Lemma after_sleeps_idle ticks w :
  (forall t, In t ticks -> forall x, duringSleep t x = x) ->
  after_sleeps ticks w = w.
Proof.
  revert w. induction ticks as [|t ticks IH]; intros w Hidle; cbn.
  - reflexivity.
  - rewrite (Hidle t (or_introl eq_refl)).
    apply IH. intros t' Hin. apply Hidle. now right.
Qed.

(** While nothing sets [ended], the wait does not resolve, and it is
    rejected at the first test past the timeout. *)
Lemma stopWait_never_resolves start ticks :
  forall w,
    ended w = false ->
    (forall t, In t ticks -> forall x, ended (duringSleep t x) = ended x) ->
    fst (stopWait start ticks w) <> Resolved
    /\ ((exists t, In t ticks /\ nowAtTest t - start > TIMEOUT) ->
        fst (stopWait start ticks w) = Rejected stop_error).
Proof.
  induction ticks as [|t ticks IH]; intros w Hw Hkeep; cbn [stopWait];
    rewrite Hw.
  - split; [discriminate|]. intros (t & [] & _).
  - destruct (Z.gtb_spec (nowAtTest t - start) TIMEOUT) as [Hgt|Hle].
    + split; [discriminate | reflexivity].
    + destruct (IH (duringSleep t w)) as [Hne Hout].
      * rewrite (Hkeep t (or_introl eq_refl)). exact Hw.
      * intros t' Hin. apply Hkeep. now right.
      * split; [exact Hne|]. intros (t' & [<-|Hin] & Hlate); [lia|].
        apply Hout. now exists t'.
Qed.

(** ** Splitting a line at spaces *)

Lemma split_nonempty (sep : ascii) (s : string) : JsString.split sep s <> [].
Proof.
  destruct s as [|c s]; cbn [JsString.split]; [discriminate|].
  destruct (Ascii.eqb c sep); [discriminate|].
  destruct (JsString.split sep s); discriminate.
Qed.

Lemma split_token (sep : ascii) (tok rest : string) :
  free_of sep tok = true ->
  JsString.split sep (tok ++ String sep rest)%string
  = tok :: JsString.split sep rest.
Proof.
  induction tok as [|c tok IH]; intros Hfree; cbn [String.append JsString.split].
  - now rewrite Ascii.eqb_refl.
  - cbn [free_of] in Hfree. apply andb_true_iff in Hfree.
    destruct Hfree as [Hc Hfree]. apply negb_true_iff in Hc. rewrite Hc.
    now rewrite IH.
Qed.

Lemma split_single (sep : ascii) (tok : string) :
  free_of sep tok = true -> JsString.split sep tok = [tok].
Proof.
  induction tok as [|c tok IH]; intros Hfree; cbn [JsString.split].
  - reflexivity.
  - cbn [free_of] in Hfree. apply andb_true_iff in Hfree.
    destruct Hfree as [Hc Hfree]. apply negb_true_iff in Hc. rewrite Hc.
    now rewrite IH.
Qed.

Lemma programData_of_line (t0 t1 payload : string) (more : option string) :
  free_of " " t0 = true -> free_of " " t1 = true ->
  free_of " " payload = true ->
  programData_of (line_of t0 t1 payload more) = Some payload.
Proof.
  intros H0 H1 H2. unfold programData_of, line_of.
  rewrite (split_token _ _ _ H0), (split_token _ _ _ H1).
  destruct more as [r|].
  - now rewrite (split_token _ _ _ H2).
  - now rewrite (split_single _ _ H2).
Qed.

(** ** Numbers of 64 bits *)

Lemma byte_to_N_inj (a b : byte) : Byte.to_N a = Byte.to_N b -> a = b.
Proof.
  intros H. pose proof (Byte.of_to_N a) as Ha.
  rewrite H, Byte.of_to_N in Ha. congruence.
Qed.

Lemma base256_step (a b : byte) (r s : N) :
  (Byte.to_N a + 256 * r = Byte.to_N b + 256 * s)%N -> a = b /\ r = s.
Proof.
  intros H. pose proof (Byte.to_N_bounded a). pose proof (Byte.to_N_bounded b).
  split; [apply byte_to_N_inj|]; lia.
Qed.

Lemma float64_bits_inj (x y : JsNumber) :
  float64_bits x = float64_bits y -> x = y.
Proof.
  destruct x as [a0 a1 a2 a3 a4 a5 a6 a7], y as [b0 b1 b2 b3 b4 b5 b6 b7].
  cbn [float64_bits fold_right]. intros H.
  repeat (apply base256_step in H; destruct H as [<- H]). reflexivity.
Qed.

Lemma float64_bits_bound (x : JsNumber) :
  (float64_bits x < 18446744073709551616)%N.
Proof.
  destruct x as [a0 a1 a2 a3 a4 a5 a6 a7]. cbn [float64_bits fold_right].
  pose proof (Byte.to_N_bounded a0). pose proof (Byte.to_N_bounded a1).
  pose proof (Byte.to_N_bounded a2). pose proof (Byte.to_N_bounded a3).
  pose proof (Byte.to_N_bounded a4). pose proof (Byte.to_N_bounded a5).
  pose proof (Byte.to_N_bounded a6). pose proof (Byte.to_N_bounded a7).
  lia.
Qed.

(** More pigeons than holes *)
Lemma pigeonhole (n : nat) (g : nat -> nat) :
  (forall i, (i <= n)%nat -> (g i < n)%nat) ->
  ~ (forall i j, (i <= n)%nat -> (j <= n)%nat -> g i = g j -> i = j).
Proof.
  intros Hbound Hinj.
  assert (Hnd : NoDup (map g (seq 0 (S n)))).
  { apply Finite.Injective_map_NoDup_in; [|apply seq_NoDup].
    intros i j Hi Hj. apply in_seq in Hi, Hj. apply Hinj; lia. }
  assert (Hincl : incl (map g (seq 0 (S n))) (seq 0 n)).
  { intros y Hy. apply in_map_iff in Hy. destruct Hy as (i & <- & Hi).
    apply in_seq in Hi. apply in_seq. specialize (Hbound i). lia. }
  pose proof (NoDup_incl_length Hnd Hincl) as Hlen.
  rewrite length_map, !length_seq in Hlen. lia.
Qed.

(** A JavaScript number has 64 bits: no function from the 128-bit values
    to numbers tells them all apart. *)
Lemma no_lossless_number_of_u128 (cv : N -> JsNumber) :
  ~ (forall p q, (p < 2 ^ 128)%N -> (q < 2 ^ 128)%N -> cv p = cv q -> p = q).
Proof.
  change (2 ^ 128)%N with 340282366920938463463374607431768211456%N.
  intros Hinj.
  apply (pigeonhole (N.to_nat 18446744073709551616%N)
                    (fun i => N.to_nat (float64_bits (cv (N.of_nat i))))).
  - intros i _. pose proof (float64_bits_bound (cv (N.of_nat i))). lia.
  - intros i j Hi Hj Heq.
    assert (Hc : cv (N.of_nat i) = cv (N.of_nat j)).
    { apply float64_bits_inj. lia. }
    apply Hinj in Hc; lia.
Qed.

(** * The feed against its specification *)

(** ** Repeated signatures *)

(** C1, on the code: a signature that the remote source lists twice in one
    answer is handed to [handleSignature] twice, because the batch loop
    deletes it from [processingSignatures] as soon as it has handled it.
    Here the set is empty, the cursor is at slot 0, and the answer is
    twice the signature "X" of slot 5. *)
Theorem repeated_signature_handled_twice :
  handled
    (snd (pollOnce Ledger.env
            (Ledger.turn [mkSig "X" 5; mkSig "X" 5] 100)
            (mkCursor "start" 0) Ledger.fresh))
  = [mkSig "X" 5; mkSig "X" 5].
Proof. reflexivity. Qed.

(** ** Old slots and the cursor *)

(** The cursor follows the answer of the remote source, also backwards:
    from slot 10 it moves to slot 5 when the newest signature of the answer
    has slot 5, although that signature is skipped. *)
Lemma cursor_can_regress :
  ~ (forall (E : Env) (p : Poll) (cur cur' : Cursor) (w w' : World),
        pollOnce E p cur w = (Normal cur', w') ->
        lastSlot cur <= lastSlot cur').
Proof.
  intros H.
  specialize (H Ledger.env (Ledger.turn [mkSig "B" 5] 100)
                (mkCursor "A" 10) (mkCursor "B" 5) Ledger.fresh).
  specialize (H _ eq_refl). cbn in H. lia.
Qed.

(** C2, on the code: with the cursor at slot 10, a turn whose answer is
    the signature "B" of slot 5 skips "B", as the guard on old slots says,
    and then stores slot 5 in [lastSlot]: the cursor has regressed. In the
    next turn the guard compares with 5, and the signature "C" of slot 7,
    older than the slot 10 already reached, is handled. *)
Theorem regressed_cursor_defeats_slot_guard :
  pollOnce Ledger.env (Ledger.turn [mkSig "B" 5] 100) (mkCursor "A" 10)
           Ledger.fresh
  = (Normal (mkCursor "B" 5),
     snd (pollOnce Ledger.env (Ledger.turn [mkSig "B" 5] 100)
                   (mkCursor "A" 10) Ledger.fresh))
  /\ handled (snd (pollOnce Ledger.env (Ledger.turn [mkSig "B" 5] 100)
                            (mkCursor "A" 10) Ledger.fresh))
     = []
  /\ lastSlot (mkCursor "B" 5) < lastSlot (mkCursor "A" 10)
  /\ handled
       (snd (pollOnce Ledger.env (Ledger.turn [mkSig "C" 7] 200)
               (mkCursor "B" 5)
               (snd (pollOnce Ledger.env (Ledger.turn [mkSig "B" 5] 100)
                             (mkCursor "A" 10) Ledger.fresh))))
     = [mkSig "C" 7].
Proof.
  split; [vm_compute; reflexivity|].
  split; [vm_compute; reflexivity|].
  split; [cbn; lia | vm_compute; reflexivity].
Qed.

(** What the code does keep: a signature with a slot below [lastSlot] is
    skipped, and no such signature is processed in a turn that completes;
    an empty answer leaves the cursor alone; a non-empty answer moves
    [lastSlot] to the slot of its newest signature, processed or skipped,
    so that [lastSlot] does not decrease in a turn whose newest signature
    has a slot not below it; and over any number of turns [lastSlot] does
    not decrease when the answers of the remote source ascend. *)
Lemma old_slots_skipped_cursor_follows_newest
  (E : Env) (p : Poll) (cur : Cursor) (w : World) :
  (forall sig w0, slot sig < lastSlot cur ->
                  processSignature E (lastSlot cur) sig w0 = (Normal tt, w0))
  /\ (forall cur' w',
        pollOnce E p cur w = (Normal cur', w') ->
        (forall sig, In sig (handled_since w w') -> lastSlot cur <= slot sig)
        /\ (source p (since cur) = Normal [] -> cur' = cur)
        /\ (forall newest older,
              source p (since cur) = Normal (newest :: older) ->
              lastSlot cur' = slot newest
              /\ (lastSlot cur <= slot newest -> lastSlot cur <= lastSlot cur')))
  /\ (forall endTime polls r cur' w',
        answers_ascend (lastSlot cur) polls ->
        pollLoop E endTime polls cur w = (Normal (r, cur'), w') ->
        lastSlot cur <= lastSlot cur').
Proof.
  split; [|split].
  - intros sig w0 Hlt. now apply processSignature_old_slot.
  - intros cur' w' Hturn. split; [|split].
    + intros sig Hin.
      destruct (pollOnce_answered E _ _ _ _ _ Hturn) as [[|newest older] Ha].
      * rewrite pollOnce_empty in Hturn by exact Ha.
        injection Hturn as _ <-. unfold handled_since in Hin.
        rewrite skipn_all in Hin. destruct Hin.
      * destruct (pollOnce_normal E _ _ _ _ _ _ _ Ha Hturn)
          as (_ & _ & _ & _ & _ & _ & Hh).
        rewrite (handled_since_app _ _ _ Hh) in Hin.
        apply filter_In in Hin. destruct Hin as [_ Hp].
        unfold passes in Hp. apply andb_true_iff in Hp.
        destruct Hp as [_ Hp]. now apply Z.leb_le in Hp.
    + intros Ha. rewrite pollOnce_empty in Hturn by exact Ha. congruence.
    + intros newest older Ha.
      destruct (pollOnce_normal E _ _ _ _ _ _ _ Ha Hturn) as (-> & _).
      cbn. split; [reflexivity | trivial].
  - intros endTime polls r cur' w'. apply cursor_ascends_with_answers.
Qed.

Lemma old_slots_skipped_cursor_follows_newest_witness :
  lastSlot (mkCursor "A" 10) <= lastSlot (mkCursor "C" 12)
  /\ handled_since Ledger.fresh
       (snd (pollOnce Ledger.env
               (Ledger.turn [mkSig "C" 12; mkSig "B" 5] 100)
               (mkCursor "A" 10) Ledger.fresh))
     = [mkSig "C" 12]
  /\ lastSlot (mkCursor "A" 10) <= lastSlot (mkCursor "D" 15).
Proof.
  destruct (old_slots_skipped_cursor_follows_newest Ledger.env
              (Ledger.turn [mkSig "C" 12; mkSig "B" 5] 100)
              (mkCursor "A" 10) Ledger.fresh) as (_ & Hturn & Hrun).
  split; [|split].
  - destruct (Hturn (mkCursor "C" 12) _ eq_refl) as (_ & _ & Hnew).
    apply (Hnew (mkSig "C" 12) [mkSig "B" 5] eq_refl). cbn. lia.
  - reflexivity.
  - apply (Hrun 1000
             [Ledger.turn [mkSig "C" 12; mkSig "B" 5] 100;
              Ledger.turn [] 200;
              Ledger.turn [mkSig "D" 15] 300]
             false (mkCursor "D" 15)
             (snd (pollLoop Ledger.env 1000
                     [Ledger.turn [mkSig "C" 12; mkSig "B" 5] 100;
                      Ledger.turn [] 200;
                      Ledger.turn [mkSig "D" 15] 300]
                     (mkCursor "A" 10) Ledger.fresh))).
    + cbn. intros _. split; [lia|]. intros _. intros _. split; [lia | exact I].
    + vm_compute. reflexivity.
Defined.

(** ** The cursor after a batch *)

(** The signature the cursor is set to need not be one that was
    processed. *)
Lemma cursor_not_last_processed :
  ~ (forall (E : Env) (p : Poll) (cur cur' : Cursor) (w w' : World),
        source p (since cur) <> Normal [] ->
        pollOnce E p cur w = (Normal cur', w') ->
        last_elem (handled_since w w')
        = Some (mkSig (lastSignature cur') (lastSlot cur'))).
Proof.
  intros H.
  specialize (H Ledger.env (Ledger.turn [mkSig "B" 5; mkSig "A" 12] 100)
                (mkCursor "start" 10) (mkCursor "B" 5) Ledger.fresh).
  specialize (H _ ltac:(discriminate) eq_refl).
  vm_compute in H. discriminate.
Qed.

(** C3, on the code: with the cursor at slot 10, the remote source answers
    "B" (slot 5, the newest) then "A" (slot 12). The turn processes "A"
    only, "B" being skipped for its slot, and then sets the cursor to "B"
    and slot 5: to the last element of the batch, which is not the last
    signature processed. *)
Theorem cursor_set_to_skipped_signature :
  pollOnce Ledger.env (Ledger.turn [mkSig "B" 5; mkSig "A" 12] 100)
           (mkCursor "start" 10) Ledger.fresh
  = (Normal (mkCursor "B" 5),
     snd (pollOnce Ledger.env (Ledger.turn [mkSig "B" 5; mkSig "A" 12] 100)
                   (mkCursor "start" 10) Ledger.fresh))
  /\ handled_since Ledger.fresh
       (snd (pollOnce Ledger.env (Ledger.turn [mkSig "B" 5; mkSig "A" 12] 100)
                     (mkCursor "start" 10) Ledger.fresh))
     = [mkSig "A" 12]
  /\ mkSig "A" 12 <> mkSig "B" 5.
Proof.
  split; [vm_compute; reflexivity|].
  split; [vm_compute; reflexivity | discriminate].
Qed.

(** What the code does keep: a turn whose answer is empty changes
    nothing, neither the cursor nor [lastUpdateUnix], and the loop goes on
    with the next turn; a turn whose answer is not empty and which
    completes has set the cursor to the newest signature of the answer and
    its slot, whether that signature was processed or skipped, and has
    stored the clock in [lastUpdateUnix]; when the newest signature passes
    the two guards it is the last one processed; and such a turn completes
    when [handleSignature] throws for no signature of the batch. *)
Lemma cursor_set_to_newest_of_batch
  (E : Env) (p : Poll) (cur : Cursor) (w : World) :
  (source p (since cur) = Normal [] -> pollOnce E p cur w = (Normal cur, w))
  /\ (forall newest older cur' w',
        source p (since cur) = Normal (newest :: older) ->
        pollOnce E p cur w = (Normal cur', w') ->
        cur' = cursor_at newest
        /\ lastUpdateUnix w' = nowAtUpdate p
        /\ (passes (processingSignatures w) (lastSlot cur) newest = true ->
            last_elem (handled_since w w') = Some newest))
  /\ (forall newest older,
        source p (since cur) = Normal (newest :: older) ->
        handles_all E (rev (newest :: older)) ->
        exists w', pollOnce E p cur w = (Normal (cursor_at newest), w'))
  /\ (forall endTime rest,
        source p (since cur) = Normal [] ->
        shouldEnd w || stopRequested p = false ->
        nowAtCheck p < endTime ->
        pollLoop E endTime (p :: rest) cur w = pollLoop E endTime rest cur w).
Proof.
  split; [|split; [|split]].
  - apply pollOnce_empty.
  - intros newest older cur' w' Ha Hturn.
    destruct (pollOnce_normal E _ _ _ _ _ _ _ Ha Hturn)
      as (-> & Hts & _ & _ & _ & _ & Hh).
    split; [reflexivity | split; [exact Hts|]].
    intros Hp. rewrite (handled_since_app _ _ _ Hh).
    cbn [rev]. rewrite filter_app. cbn [filter]. rewrite Hp.
    apply last_elem_snoc.
  - intros newest older Ha Hall.
    destruct (pollOnce_total E p cur w _ Ha Hall) as (cur' & w' & Hturn).
    destruct (pollOnce_normal E _ _ _ _ _ _ _ Ha Hturn) as (-> & _).
    now exists w'.
  - intros endTime rest Ha Hrun Htime.
    rewrite pollLoop_step by assumption.
    now rewrite (bind_normal _ _ _ _ _ (pollOnce_empty E p cur w Ha)).
Qed.

Lemma cursor_set_to_newest_of_batch_witness :
  (exists w',
      pollOnce Ledger.env
               (Ledger.turn [mkSig "fill" 12; mkSig "failed" 11] 100)
               (mkCursor "start" 10) Ledger.fresh
      = (Normal (mkCursor "fill" 12), w'))
  /\ pollOnce Ledger.env (Ledger.turn [] 100) (mkCursor "start" 10)
              Ledger.fresh
     = (Normal (mkCursor "start" 10), Ledger.fresh).
Proof.
  split.
  - apply (proj1 (proj2 (proj2 (cursor_set_to_newest_of_batch Ledger.env
                     (Ledger.turn [mkSig "fill" 12; mkSig "failed" 11] 100)
                     (mkCursor "start" 10) Ledger.fresh)))
                 (mkSig "fill" 12) [mkSig "failed" 11] eq_refl).
    intros sig [<-|[<-|[]]] w; eexists; vm_compute; reflexivity.
  - apply (proj1 (cursor_set_to_newest_of_batch Ledger.env
                    (Ledger.turn [] 100) (mkCursor "start" 10)
                    Ledger.fresh)).
    reflexivity.
Defined.

(** ** Transactions that yield nothing *)

(** C4: when the detail of a transaction is unavailable, carries no log
    messages or records an error, [handleSignature] returns normally,
    sends nothing to the listeners and counts no fill; and a batch that
    contains the signature completes with the cursor on its newest
    signature, at or after that one. *)
Theorem failed_tx_dispatches_nothing
  (E : Env) (sig : ConfirmedSignatureInfo)
  (Hskip : passed_over (getTransaction E (signature sig)) = true) :
  (forall w, exists w',
      handleSignature E sig w = (Normal tt, w')
      /\ sent w' = sent w /\ fills w' = fills w)
  /\ (forall p cur w answer pre post,
        source p (since cur) = Normal answer ->
        rev answer = pre ++ sig :: post ->
        handles_all E pre -> handles_all E post ->
        exists newest w',
          last_elem (pre ++ sig :: post) = Some newest
          /\ pollOnce E p cur w = (Normal (cursor_at newest), w')).
Proof.
  split; [now apply handleSignature_passed_over|].
  intros p cur w answer pre post Ha Hbatch Hpre Hpost.
  assert (Hall : handles_all E (rev answer)).
  { rewrite Hbatch. intros s Hin w0. apply in_app_or in Hin.
    destruct Hin as [Hin|[<-|Hin]].
    - now apply Hpre.
    - destruct (handleSignature_passed_over E _ Hskip w0) as (w1 & H1 & _).
      now exists w1.
    - now apply Hpost. }
  destruct (pollOnce_total E p cur w answer Ha Hall) as (cur' & w' & Hturn).
  destruct answer as [|newest older].
  { cbn in Hbatch. now destruct pre. }
  destruct (pollOnce_normal E _ _ _ _ _ _ _ Ha Hturn) as (-> & _).
  exists newest, w'. split; [|exact Hturn].
  rewrite <- Hbatch. apply last_elem_rev.
Qed.

Lemma failed_tx_dispatches_nothing_witness :
  (exists w',
      handleSignature Ledger.env (mkSig "failed" 11) Ledger.fresh
      = (Normal tt, w')
      /\ sent w' = [] /\ fills w' = [])
  /\ (exists newest w',
        last_elem ([] ++ [mkSig "failed" 11]) = Some newest
        /\ pollOnce Ledger.env (Ledger.turn [mkSig "failed" 11] 100)
                    (mkCursor "start" 10) Ledger.fresh
           = (Normal (cursor_at newest), w')).
Proof.
  pose proof (failed_tx_dispatches_nothing Ledger.env (mkSig "failed" 11)
                eq_refl) as [Hnone Hcursor].
  split.
  - exact (Hnone Ledger.fresh).
  - apply (Hcursor (Ledger.turn [mkSig "failed" 11] 100)
                   (mkCursor "start" 10) Ledger.fresh [mkSig "failed" 11]
                   [] [] eq_refl eq_refl);
      intros s [].
Defined.

(** ** The trim *)

(** C5: a turn that completes a non-empty batch ends with the trim of the
    set the batch left, which is the set the turn started with. The
    result never has more than 1000 entries, and when the set had more
    than 1000 it is exactly its last 1000 entries in insertion order. *)
Theorem trim_keeps_most_recent_thousand
  (E : Env) (p : Poll) (cur cur' : Cursor) (w w' : World)
  (Hset : NoDup (processingSignatures w))
  (Hanswer : source p (since cur) <> Normal [])
  (Hturn : pollOnce E p cur w = (Normal cur', w')) :
  HIGH_WATER = 1000%nat
  /\ processingSignatures w' = trim_processingSignatures (processingSignatures w)
  /\ (JsSet.size (processingSignatures w') <= HIGH_WATER)%nat
  /\ ((HIGH_WATER < JsSet.size (processingSignatures w))%nat ->
      processingSignatures w' = slice_last HIGH_WATER (processingSignatures w)
      /\ JsSet.size (processingSignatures w') = HIGH_WATER)
  /\ NoDup (processingSignatures w').
Proof.
  destruct (pollOnce_answered E _ _ _ _ _ Hturn) as [[|newest older] Ha];
    [congruence|].
  destruct (pollOnce_normal E _ _ _ _ _ _ _ Ha Hturn) as (_ & _ & Ht & _).
  rewrite Ht. split; [reflexivity|]. split; [reflexivity|].
  split; [apply trim_size_le|]. split; [|now apply NoDup_trim].
  intros Hgt. now apply trim_over.
Qed.

Lemma names_NoDup (n : nat) : NoDup (TrimExample.names n).
Proof.
  unfold TrimExample.names. apply Finite.Injective_map_NoDup; [|apply seq_NoDup].
  intros i j H. apply bignum_toString_inj in H. lia.
Qed.

Lemma trim_keeps_most_recent_thousand_witness :
  processingSignatures
    (snd (pollOnce Ledger.env TrimExample.one_turn (mkCursor "start" 10)
                   TrimExample.crowded))
  = skipn 1 (TrimExample.names 1001)
  /\ JsSet.size
       (processingSignatures
          (snd (pollOnce Ledger.env TrimExample.one_turn (mkCursor "start" 10)
                         TrimExample.crowded)))
     = 1000%nat.
Proof.
  destruct (trim_keeps_most_recent_thousand Ledger.env TrimExample.one_turn
              (mkCursor "start" 10) (mkCursor "fill" 12) TrimExample.crowded
              (snd (pollOnce Ledger.env TrimExample.one_turn
                             (mkCursor "start" 10) TrimExample.crowded)))
    as (_ & _ & _ & Hover & _).
  - apply names_NoDup.
  - discriminate.
  - vm_compute. reflexivity.
  - destruct Hover as [Hlast Hsize].
    + vm_compute. lia.
    + split; [exact Hlast | exact Hsize].
Defined.

(** ** Stop and wait *)

(** A stop that times out does not leave the object as it was: the stop
    flag, which the loop reads at its next test, stays raised. *)
Lemma timed_out_stop_leaves_flag_raised :
  ~ (forall (start : Z) (ticks : list StopTick) (w w' : World) (e : JsError),
        (forall t, In t ticks -> forall x, duringSleep t x = x) ->
        stopParseLogs start ticks w = (Rejected e, w') ->
        w' = w).
Proof.
  intros H.
  specialize (H 1000 (StopExample.stuck ++ [StopExample.late]) Ledger.fresh
                (set_shouldEnd true Ledger.fresh) stop_error).
  assert (Hflag : shouldEnd (set_shouldEnd true Ledger.fresh)
                  = shouldEnd Ledger.fresh).
  { f_equal. apply H; [|reflexivity].
    intros t [<-|[<-|[<-|[]]]] x; reflexivity. }
  discriminate Hflag.
Qed.

(** C6: [stopParseLogs] raises [shouldEnd] and then waits; a loop that
    finds the flag raised at its test closes the server and sets [ended],
    the state the wait is for. The wait resolves when, at one of its
    tests and with every earlier test within the timeout, the loop has
    set [ended]. When [ended] is still unset at the first test more than
    [TIMEOUT] after the start, the wait is rejected with the error "failed
    to stop parseLogs after 30 seconds", and the object is as the rest of
    the program left it: apart from [shouldEnd], which stays raised, the
    operation has written no field, so with the rest of the program idle
    every other field is the one it had at the call. *)
Theorem stop_and_wait (start : Z) (w : World) :
  (forall pre post,
      Forall (in_time start) pre ->
      ended (after_sleeps pre (set_shouldEnd true w)) = true ->
      fst (stopParseLogs start (pre ++ post) w) = Resolved)
  /\ (forall pre t post,
        Forall (in_time start) pre ->
        (forall k, (k <= List.length pre)%nat ->
           ended (after_sleeps (firstn k pre) (set_shouldEnd true w)) = false) ->
        nowAtTest t - start > TIMEOUT ->
        stopParseLogs start (pre ++ t :: post) w
        = (Rejected stop_error, after_sleeps pre (set_shouldEnd true w))
        /\ ((forall t0, In t0 pre -> forall x, duringSleep t0 x = x) ->
            forall w', w' = snd (stopParseLogs start (pre ++ t :: post) w) ->
            shouldEnd w' = true
            /\ ended w' = ended w
            /\ lastUpdateUnix w' = lastUpdateUnix w
            /\ processingSignatures w' = processingSignatures w
            /\ wssOpen w' = wssOpen w
            /\ clients w' = clients w /\ console w' = console w
            /\ sent w' = sent w /\ fills w' = fills w))
  /\ (forall E endEarly s first others p rest,
        firstSource s most_recent_one = Normal (first :: others) ->
        stopRequested p = true ->
        exists w',
          parseLogs E endEarly s (p :: rest) w
          = (Normal (true, cursor_at first), w')
          /\ ended w' = true /\ wssOpen w' = false
          /\ forall ticks, fst (stopParseLogs start ticks w') = Resolved).
Proof.
  split; [|split].
  - intros pre post Hin Hend. unfold stopParseLogs.
    now apply stopWait_resolves.
  - intros pre t post Hin Hrun Hlate. unfold stopParseLogs.
    rewrite (stopWait_times_out start pre t post _ Hin Hrun Hlate).
    split; [reflexivity|].
    intros Hidle w' ->. cbn [snd]. rewrite after_sleeps_idle by exact Hidle.
    cbn. repeat split.
  - intros E endEarly s first others p rest Hfirst Hstop.
    destruct (parseLogs_stops_on_request E endEarly s first others p rest w
                Hfirst) as (w' & Hparse & Hended & Hwss).
    { rewrite Hstop. apply orb_true_r. }
    exists w'. split; [exact Hparse|]. split; [exact Hended|].
    split; [exact Hwss|]. intros ticks. unfold stopParseLogs.
    now rewrite stopWait_ended.
Qed.

Lemma stop_and_wait_witness :
  fst (stopParseLogs 1000 (StopExample.stopping ++ [StopExample.late])
                     Ledger.fresh) = Resolved
  /\ stopParseLogs 1000 (StopExample.stuck ++ [StopExample.late]) Ledger.fresh
     = (Rejected stop_error, set_shouldEnd true Ledger.fresh).
Proof.
  destruct (stop_and_wait 1000 Ledger.fresh) as (Hres & Hout & _).
  split.
  - apply (Hres StopExample.stopping [StopExample.late]).
    + apply Forall_forall.
      intros t [<-|[<-|[]]]; unfold in_time, TIMEOUT; cbn; lia.
    + reflexivity.
  - refine (proj1 (Hout StopExample.stuck StopExample.late [] _ _ _)).
    + apply Forall_forall.
      intros t [<-|[<-|[]]]; unfold in_time, TIMEOUT; cbn; lia.
    + intros [|[|[|k]]] Hk; cbn in Hk; try lia; reflexivity.
    + unfold TIMEOUT. cbn. lia.
Defined.

(** ** The first query *)

(** C7: [parseLogs] starts by asking the remote source for one signature,
    the most recent one. When the answer is empty it throws, before the
    loop and without touching the object, and the error reaches the
    caller; so does the error of a query that is rejected. Otherwise the
    loop starts with the cursor on the first signature of the answer. *)
Theorem no_initial_signature_is_fatal
  (E : Env) (endEarly : bool) (s : Startup) (polls : list Poll) (w : World) :
  (firstSource s most_recent_one = Normal [] ->
   parseLogs E endEarly s polls w
   = (Throw undefined_signature, w))
  /\ (forall e,
        firstSource s most_recent_one = Throw e ->
        parseLogs E endEarly s polls w = (Throw e, w))
  /\ (forall first rest,
        firstSource s most_recent_one = Normal (first :: rest) ->
        parseLogs E endEarly s [] w = (Normal (false, cursor_at first), w)).
Proof.
  unfold parseLogs. fold most_recent_one. unfold bind at 1, await.
  split; [|split].
  - intros ->. reflexivity.
  - intros e ->. reflexivity.
  - intros first rest ->. reflexivity.
Qed.

Lemma no_initial_signature_is_fatal_witness :
  parseLogs Ledger.env false
            {| firstSource := fun _ => Normal []; nowAtStart := 0 |}
            [Ledger.turn [mkSig "fill" 12] 100] Ledger.fresh
  = (Throw undefined_signature, Ledger.fresh)
  /\ parseLogs Ledger.env false
               {| firstSource := fun _ => Normal [mkSig "start" 10];
                  nowAtStart := 0 |}
               [] Ledger.fresh
     = (Normal (false, mkCursor "start" 10), Ledger.fresh).
Proof.
  split.
  - apply (proj1 (no_initial_signature_is_fatal Ledger.env false
                    {| firstSource := fun _ => Normal []; nowAtStart := 0 |}
                    [Ledger.turn [mkSig "fill" 12] 100] Ledger.fresh)).
    reflexivity.
  - apply (proj2 (proj2 (no_initial_signature_is_fatal Ledger.env false
                    {| firstSource := fun _ => Normal [mkSig "start" 10];
                       nowAtStart := 0 |}
                    [] Ledger.fresh)) (mkSig "start" 10) []).
    reflexivity.
Defined.

(** ** Quantities and prices *)

(** The price of a fill and of an order is published as a [number]:
    whatever the SDK's [convertU128] does, neither converter tells all
    128-bit prices apart. *)
Lemma price_conversion_loses_precision :
  ~ (exists E : Env,
        (forall f g : FillLog,
            (fl_price_inner f < 2 ^ 128)%N -> (fl_price_inner g < 2 ^ 128)%N ->
            flr_priceAtoms (toFillLogResult E f 0 "sig")
            = flr_priceAtoms (toFillLogResult E g 0 "sig") ->
            fl_price_inner f = fl_price_inner g)
        \/ (forall f g : PlaceOrderLog,
              (po_price_inner f < 2 ^ 128)%N -> (po_price_inner g < 2 ^ 128)%N ->
              por_price (toPlaceOrderLogResult E f 0 "sig")
              = por_price (toPlaceOrderLogResult E g 0 "sig") ->
              po_price_inner f = po_price_inner g)).
Proof.
  intros [E [Hlossless|Hlossless]];
    apply (no_lossless_number_of_u128 (convertU128 E));
    intros p q Hp Hq Heq.
  - apply (Hlossless
             (mkFillLog [] [] [] p 0 0 0 0 false false)
             (mkFillLog [] [] [] q 0 0 0 0 false false) Hp Hq Heq).
  - apply (Hlossless
             (mkPlaceOrderLog [] [] p 0 0 0 0 0 false [])
             (mkPlaceOrderLog [] [] q 0 0 0 0 0 false []) Hp Hq Heq).
Qed.

(** C8, as the code has it: the quantities of a fill and of an order are
    published as decimal strings from which the exact value is read back,
    and so are the sequence numbers; the price is published as the
    [number] that the SDK's [convertU128] returns for the 128-bit value. *)
Theorem quantities_decimal_price_number
  (E : Env) (fillLog : FillLog) (placeOrderLog : PlaceOrderLog)
  (slot : Z) (signature : string) :
  let fill := toFillLogResult E fillLog slot signature in
  let order := toPlaceOrderLogResult E placeOrderLog slot signature in
  parse_decimal (flr_baseAtoms fill) = Some (fl_baseAtoms_inner fillLog)
  /\ parse_decimal (flr_quoteAtoms fill) = Some (fl_quoteAtoms_inner fillLog)
  /\ parse_decimal (flr_makerSequenceNumber fill)
     = Some (fl_makerSequenceNumber fillLog)
  /\ parse_decimal (flr_takerSequenceNumber fill)
     = Some (fl_takerSequenceNumber fillLog)
  /\ flr_priceAtoms fill = convertU128 E (fl_price_inner fillLog)
  /\ parse_decimal (por_baseAtoms order) = Some (po_baseAtoms_inner placeOrderLog)
  /\ parse_decimal (por_orderSequenceNumber order)
     = Some (po_orderSequenceNumber placeOrderLog)
  /\ por_price order = convertU128 E (po_price_inner placeOrderLog).
Proof.
  cbn. rewrite !parse_bignum_toString. repeat split.
Qed.

(** The largest 64-bit quantity is published in full. *)
Example max_u64_quantity :
  flr_baseAtoms (toFillLogResult Ledger.env Ledger.sample_fill 12 "fill")
  = "18446744073709551615".
Proof. reflexivity. Qed.

(** ** An exception in [handleSignature] *)

(** C9: the loop has run some turns and is still running; in the next
    turn the batch reaches a signature that passes the two guards and
    whose handling throws. Then [parseLogs] ends with that exception, the
    signature is still in [processingSignatures], the server has not been
    closed and [ended] has not been set; and as long as nothing else sets
    [ended], a stop-and-wait started afterwards never resolves and is
    rejected at its first test past the timeout. *)
Theorem handleSignature_throw_escapes
  (E : Env) (endEarly : bool) (s : Startup)
  (first : ConfirmedSignatureInfo) (others : list ConfirmedSignatureInfo)
  (before : list Poll) (p : Poll) (after : list Poll)
  (w w1 w2 w3 : World) (cur1 : Cursor)
  (answer pre post : list ConfirmedSignatureInfo)
  (sig : ConfirmedSignatureInfo) (e : JsError)
  (Hfirst : firstSource s most_recent_one = Normal (first :: others))
  (Hbefore : pollLoop E (endTime_of endEarly (nowAtStart s)) before
                      (cursor_at first) w
             = (Normal (false, cur1), w1))
  (Hrun : shouldEnd w1 || stopRequested p = false)
  (Htime : nowAtCheck p < endTime_of endEarly (nowAtStart s))
  (Hanswer : source p (since cur1) = Normal answer)
  (Hbatch : rev answer = pre ++ sig :: post)
  (Hpre : for_of pre (processSignature E (lastSlot cur1)) w1 = (Normal tt, w2))
  (Hpass : passes (processingSignatures w2) (lastSlot cur1) sig = true)
  (Hthrow : handleSignature E sig (entering sig w2) = (Throw e, w3)) :
  parseLogs E endEarly s (before ++ p :: after) w = (Throw e, w3)
  /\ In (signature sig) (processingSignatures w3)
  /\ wssOpen w3 = wssOpen w
  /\ ended w3 = ended w
  /\ (ended w = false ->
      forall start ticks,
        (forall t, In t ticks -> forall x, ended (duringSleep t x) = ended x) ->
        fst (stopParseLogs start ticks w3) <> Resolved
        /\ ((exists t, In t ticks /\ nowAtTest t - start > TIMEOUT) ->
            fst (stopParseLogs start ticks w3) = Rejected stop_error)).
Proof.
  unfold passes in Hpass. apply andb_true_iff in Hpass.
  destruct Hpass as [Hfresh Hslot].
  apply negb_true_iff in Hfresh. apply Z.leb_le in Hslot.
  assert (Hproc : processSignature E (lastSlot cur1) sig w2 = (Throw e, w3)).
  { rewrite processSignature_handles by assumption. now rewrite Hthrow. }
  assert (Honce : pollOnce E p cur1 w1 = (Throw e, w3)).
  { destruct answer as [|newest older].
    { cbn in Hbatch. now destruct pre. }
    rewrite (pollOnce_nonempty E _ _ _ _ _ Hanswer), Hbatch, for_of_app.
    rewrite (bind_normal _ _ _ _ _ Hpre). cbn [for_of].
    now rewrite (bind_throw _ _ _ _ _ Hproc). }
  assert (Hparse : parseLogs E endEarly s (before ++ p :: after) w
                   = (Throw e, w3)).
  { rewrite (parseLogs_started E _ _ _ _ _ _ Hfirst).
    apply bind_throw.
    rewrite pollLoop_app, Hbefore, pollLoop_step by assumption.
    now apply bind_throw. }
  destruct (parseLogs_throw_server E _ _ _ _ _ _ Hparse) as [Hended Hwss].
  split; [exact Hparse|].
  split; [apply (processSignature_throw E _ _ _ _ _ Hproc)|].
  split; [exact Hwss|]. split; [exact Hended|].
  intros Hw start ticks Hkeep. unfold stopParseLogs.
  apply stopWait_never_resolves; [|exact Hkeep].
  cbn. congruence.
Qed.

Lemma handleSignature_throw_escapes_witness :
  parseLogs Ledger.env false ThrowExample.startup
            ([] ++ ThrowExample.turn :: []) Ledger.fresh
  = (Throw InvalidCharacterError, ThrowExample.at_throw)
  /\ In "garbled" (processingSignatures ThrowExample.at_throw)
  /\ wssOpen ThrowExample.at_throw = true
  /\ ended ThrowExample.at_throw = false
  /\ fst (stopParseLogs 1000 (StopExample.stuck ++ [StopExample.late])
                        ThrowExample.at_throw)
     = Rejected stop_error.
Proof.
  destruct (handleSignature_throw_escapes
              Ledger.env false ThrowExample.startup
              (mkSig "start" 10) [] [] ThrowExample.turn []
              Ledger.fresh Ledger.fresh ThrowExample.before_garbled
              ThrowExample.at_throw (mkCursor "start" 10)
              [mkSig "garbled" 12; mkSig "failed" 11]
              [mkSig "failed" 11] [] (mkSig "garbled" 12)
              InvalidCharacterError)
    as (Hparse & Hin & Hwss & Hended & Hstop);
    try reflexivity.
  split; [exact Hparse|]. split; [exact Hin|].
  split; [exact Hwss|]. split; [exact Hended|].
  apply (Hstop eq_refl 1000 (StopExample.stuck ++ [StopExample.late])).
  - intros t [<-|[<-|[<-|[]]]] x; reflexivity.
  - exists StopExample.late. split; [cbn; tauto | unfold TIMEOUT; cbn; lia].
Defined.

(** ** The payload of a log line *)

(** What is decoded is not the third white-space-separated token: with
    two spaces after the marker, the third such token is the payload, and
    the code decodes the empty text between the two spaces. *)
Lemma third_word_not_decoded :
  ~ (forall entry payload : string,
        JsString.includes PROGRAM_DATA entry = true ->
        third_whitespace_token entry = Some payload ->
        programData_of entry = Some payload).
Proof.
  intros H.
  specialize (H "Program data:  OubyA0txBKk=" "OubyA0txBKk="
                eq_refl eq_refl).
  vm_compute in H. discriminate.
Qed.

(** C10, as the code has it: the text given to [atob] for a selected line
    is the element at index 2 of the line split at every single space,
    with empty elements counted, and the text "undefined" when the line
    has fewer than three elements; the buffer that is dispatched on is
    what [atob] returns for that text, and [handleSignature] throws when
    [atob] refuses it. Nothing else of the line matters: a line whose
    element at index 2 is [payload] is treated as the line
    "Program data: <payload>", wherever the marker stands in it. *)
Theorem payload_is_third_token
  (E : Env) (sig : ConfirmedSignatureInfo)
  (t0 t1 payload : string) (more : option string)
  (H0 : free_of " " t0 = true) (H1 : free_of " " t1 = true)
  (H2 : free_of " " payload = true) :
  programData_of (line_of t0 t1 payload more) = Some payload
  /\ (forall w,
        atob E payload = None ->
        handleProgramData E sig (line_of t0 t1 payload more) w
        = (Throw InvalidCharacterError, w))
  /\ (forall w buffer,
        atob E payload = Some buffer ->
        handleProgramData E sig (line_of t0 t1 payload more) w
        = handleBuffer E sig buffer w)
  /\ (forall w,
        handleProgramData E sig (line_of t0 t1 payload more) w
        = handleProgramData E sig ("Program data: " ++ payload)%string w)
  /\ (forall entry entry' w,
        nth_error (JsString.split " " entry) 2
        = nth_error (JsString.split " " entry') 2 ->
        handleProgramData E sig entry w = handleProgramData E sig entry' w)
  /\ (forall entry w,
        handleProgramData E sig entry w
        = match atob E (JsString.toString
                          (nth_error (JsString.split " " entry) 2)) with
          | Some buffer => handleBuffer E sig buffer w
          | None => (Throw InvalidCharacterError, w)
          end).
Proof.
  assert (Hdec : forall entry w,
             handleProgramData E sig entry w
             = match atob E (JsString.toString
                               (nth_error (JsString.split " " entry) 2)) with
               | Some buffer => handleBuffer E sig buffer w
               | None => (Throw InvalidCharacterError, w)
               end).
  { intros entry w.
    unfold handleProgramData, decode_programData, programData_of, bind.
    now destruct (atob E _). }
  assert (Hdep : forall entry entry' w,
             nth_error (JsString.split " " entry) 2
             = nth_error (JsString.split " " entry') 2 ->
             handleProgramData E sig entry w = handleProgramData E sig entry' w).
  { intros entry entry' w Heq. now rewrite !Hdec, Heq. }
  pose proof (programData_of_line t0 t1 payload more H0 H1 H2) as Hline.
  split; [exact Hline|].
  unfold programData_of in Hline.
  split; [|split; [|split; [|split; [exact Hdep | exact Hdec]]]].
  - intros w Hno. rewrite Hdec, Hline. cbn [JsString.toString].
    now rewrite Hno.
  - intros w buffer Hyes. rewrite Hdec, Hline. cbn [JsString.toString].
    now rewrite Hyes.
  - intros w. apply Hdep. rewrite Hline.
    change ("Program data: " ++ payload)%string
      with (line_of "Program" "data:" payload None).
    symmetry. now apply programData_of_line.
Qed.

Lemma payload_is_third_token_witness :
  JsString.includes PROGRAM_DATA "x y AAAA Program data: OubyA0txBKk=" = true
  /\ programData_of "x y AAAA Program data: OubyA0txBKk=" = Some "AAAA"
  /\ handleProgramData Ledger.env (mkSig "fill" 12)
       "x y AAAA Program data: OubyA0txBKk=" Ledger.fresh
     = handleProgramData Ledger.env (mkSig "fill" 12)
         "Program data: AAAA" Ledger.fresh
  /\ handleProgramData Ledger.env (mkSig "fill" 12)
       "x y AAAA Program data: OubyA0txBKk=" Ledger.fresh
     = handleBuffer Ledger.env (mkSig "fill" 12) [x00; x00; x00] Ledger.fresh
  /\ handleProgramData Ledger.env (mkSig "fill" 12)
       (line_of "x" "y" "%%%" (Some "Program data: OubyA0txBKk="))
       Ledger.fresh
     = (Throw InvalidCharacterError, Ledger.fresh).
Proof.
  destruct (payload_is_third_token Ledger.env (mkSig "fill" 12)
              "x" "y" "AAAA" (Some "Program data: OubyA0txBKk=")
              eq_refl eq_refl eq_refl) as (Htok & _ & Hbuf & Hsame & _).
  split; [reflexivity|]. split; [exact Htok|].
  split; [exact (Hsame Ledger.fresh)|].
  split; [exact (Hbuf Ledger.fresh [x00; x00; x00] eq_refl)|].
  apply (proj1 (proj2 (payload_is_third_token Ledger.env (mkSig "fill" 12)
                  "x" "y" "%%%" (Some "Program data: OubyA0txBKk=")
                  eq_refl eq_refl eq_refl)) Ledger.fresh eq_refl).
Defined.

(** * Further properties of the feed *)

(** ** Batches, turn after turn *)

Lemma pollLoop_keeps_set (E : Env) (endTime : Z) (polls : list Poll) :
  forall cur w r w',
    (JsSet.size (processingSignatures w) <= HIGH_WATER)%nat ->
    pollLoop E endTime polls cur w = (Normal r, w') ->
    processingSignatures w' = processingSignatures w.
Proof.
  induction polls as [|p polls IH]; intros cur w r w' Hsmall H.
  - cbn in H. now injection H as _ <-.
  - destruct (shouldEnd w || stopRequested p) eqn:Hs.
    { rewrite pollLoop_exit in H by now left. now injection H as _ <-. }
    destruct (Z.lt_ge_cases (nowAtCheck p) endTime) as [Hlt|Hge].
    2:{ rewrite pollLoop_exit in H by now right. now injection H as _ <-. }
    rewrite pollLoop_step in H by assumption.
    apply bind_inv_normal in H. destruct H as (cur1 & w1 & H1 & H2).
    assert (Hset : processingSignatures w1 = processingSignatures w).
    { destruct (pollOnce_answered E _ _ _ _ _ H1) as [[|newest older] Ha].
      - rewrite pollOnce_empty in H1 by exact Ha. now injection H1 as _ <-.
      - destruct (pollOnce_normal E _ _ _ _ _ _ _ Ha H1) as (_ & _ & Ht & _).
        rewrite Ht. now apply trim_under. }
    rewrite <- Hset. eapply IH; [|exact H2]. now rewrite Hset.
Qed.

(** The signatures a completed turn has processed *)
Lemma handled_in_turn
  (E : Env) (p : Poll) (cur cur' : Cursor) (w w' : World)
  (answer : list ConfirmedSignatureInfo) :
  source p (since cur) = Normal answer ->
  pollOnce E p cur w = (Normal cur', w') ->
  handled_since w w'
  = filter (passes (processingSignatures w) (lastSlot cur)) (rev answer).
Proof.
  intros Ha Hturn. destruct answer as [|newest older].
  - rewrite pollOnce_empty in Hturn by exact Ha. injection Hturn as _ <-.
    unfold handled_since. now rewrite skipn_all.
  - destruct (pollOnce_normal E _ _ _ _ _ _ _ Ha Hturn)
      as (_ & _ & _ & _ & _ & _ & Hh).
    now apply handled_since_app.
Qed.

(** X1: a turn that completes has handed to [handleSignature], oldest
    first and each element once, exactly the elements of the answer that
    are not in [processingSignatures] and whose slot is not below
    [lastSlot]; the order is the reverse of the order of the answer. *)
Theorem batch_processed_oldest_first
  (E : Env) (p : Poll) (cur cur' : Cursor) (w w' : World)
  (Hturn : pollOnce E p cur w = (Normal cur', w')) :
  exists answer,
    source p (since cur) = Normal answer
    /\ handled_since w w'
       = filter (passes (processingSignatures w) (lastSlot cur)) (rev answer).
Proof.
  destruct (pollOnce_answered E _ _ _ _ _ Hturn) as [answer Ha].
  exists answer. split; [exact Ha|]. destruct answer as [|newest older].
  - rewrite pollOnce_empty in Hturn by exact Ha. injection Hturn as _ <-.
    unfold handled_since. now rewrite skipn_all.
  - destruct (pollOnce_normal E _ _ _ _ _ _ _ Ha Hturn)
      as (_ & _ & _ & _ & _ & _ & Hh).
    now apply handled_since_app.
Qed.

Lemma batch_processed_oldest_first_witness :
  handled_since Runs.feed
    (snd (pollOnce Ledger.env Runs.mixed Runs.start Runs.feed))
  = [mkSig "failed" 11; mkSig "fill" 12].
Proof.
  assert (Hturn :
    pollOnce Ledger.env Runs.mixed Runs.start Runs.feed
    = (Normal (mkCursor "fill" 12),
       snd (pollOnce Ledger.env Runs.mixed Runs.start Runs.feed)))
    by (vm_compute; reflexivity).
  destruct (batch_processed_oldest_first _ _ _ _ _ _ Hturn)
    as (answer & Ha & Hh).
  injection Ha as <-. exact Hh.
Defined.

(** X2: as long as [parseLogs] has not thrown, [processingSignatures] is
    after every turn what it was before the loop (it had at most 1000
    entries): for a new [FillFeed] it is empty, so the test for a
    signature already in the set never skips one and the trim never
    removes one. *)
Theorem set_unchanged_between_turns
  (E : Env) (endTime : Z) (polls : list Poll) (cur : Cursor)
  (w w' : World) (r : bool * Cursor)
  (Hsmall : (JsSet.size (processingSignatures w) <= HIGH_WATER)%nat)
  (Hrun : pollLoop E endTime polls cur w = (Normal r, w')) :
  processingSignatures w' = processingSignatures w
  /\ (forall sig ls,
        processingSignatures w = [] ->
        passes (processingSignatures w') ls sig = (ls <=? slot sig)).
Proof.
  pose proof (pollLoop_keeps_set E endTime polls cur w r w' Hsmall Hrun) as Hset.
  split; [exact Hset|].
  intros sig ls Hempty. rewrite Hset, Hempty. reflexivity.
Qed.

Lemma set_unchanged_between_turns_witness :
  processingSignatures
    (snd (pollLoop Ledger.env 1000 Runs.three_turns Runs.start Runs.feed))
  = [].
Proof.
  refine (proj1 (set_unchanged_between_turns Ledger.env 1000
                   Runs.three_turns Runs.start Runs.feed
                   (snd (pollLoop Ledger.env 1000 Runs.three_turns
                                  Runs.start Runs.feed))
                   (false, mkCursor "order" 13) _ _)).
  - vm_compute. lia.
  - vm_compute. reflexivity.
Defined.

(** X3: a turn that throws, starting from an empty set, has thrown in
    one of two places. When the query was answered, the turn was handling
    a signature of the answer: the set holds exactly that signature, and
    [lastUpdateUnix] has not been written. When the query was rejected,
    the turn throws the error of the query and has written nothing: the
    set is still empty. *)
Theorem throw_leaves_one_signature
  (E : Env) (p : Poll) (cur : Cursor) (w w' : World) (e : JsError)
  (Hempty : processingSignatures w = [])
  (Hturn : pollOnce E p cur w = (Throw e, w')) :
  (forall answer,
      source p (since cur) = Normal answer ->
      exists sig,
        In sig answer
        /\ processingSignatures w' = [signature sig]
        /\ lastUpdateUnix w' = lastUpdateUnix w)
  /\ (forall e0,
        source p (since cur) = Throw e0 ->
        e = e0 /\ w' = w /\ processingSignatures w' = []).
Proof.
  destruct (pollOnce_throw E _ _ _ _ _ Hturn)
    as [[Hq ->]|(answer0 & pre & sig & post & w1 & Hq & Hsplit & Hpre & Hs & _)];
    (split; [intros answer Ha | intros e0 Ha]); rewrite Hq in Ha;
    try discriminate.
  - injection Ha as <-. auto.
  - injection Ha as <-.
    apply batch_normal in Hpre. destruct Hpre as (_ & _ & Ht1 & Hset1 & _).
    apply handleSignature_fields in Hs. destruct Hs as (_ & _ & Ht & Hset & _).
    exists sig. split; [|split].
    + apply in_rev. rewrite Hsplit. apply in_or_app. right. now left.
    + rewrite Hset. cbn. now rewrite Hset1, Hempty.
    + rewrite Ht. cbn. exact Ht1.
Qed.

Lemma throw_leaves_one_signature_witness :
  (exists sig,
      In sig [mkSig "fill" 13; mkSig "garbled" 12; mkSig "failed" 11]
      /\ processingSignatures
           (snd (pollOnce Ledger.env Runs.throwing Runs.start Runs.feed))
         = [signature sig]
      /\ lastUpdateUnix
           (snd (pollOnce Ledger.env Runs.throwing Runs.start Runs.feed))
         = lastUpdateUnix Runs.feed)
  /\ snd (pollOnce Ledger.env Runs.rejected Runs.start Runs.feed) = Runs.feed.
Proof.
  split.
  - refine (proj1 (throw_leaves_one_signature Ledger.env Runs.throwing
                     Runs.start Runs.feed
                     (snd (pollOnce Ledger.env Runs.throwing Runs.start
                                    Runs.feed))
                     InvalidCharacterError eq_refl _) _ eq_refl).
    vm_compute. reflexivity.
  - refine (proj1 (proj2 (proj2 (throw_leaves_one_signature Ledger.env
                     Runs.rejected Runs.start Runs.feed
                     (snd (pollOnce Ledger.env Runs.rejected Runs.start
                                    Runs.feed))
                     (RpcError "429 Too Many Requests") eq_refl _)
                     (RpcError "429 Too Many Requests") eq_refl))).
    vm_compute. reflexivity.
Defined.

(** X4: the set gives no protection from one turn to the next. When the
    remote source answers again, in the next turn, the signature the
    cursor was just set to, that signature is handed to [handleSignature]
    in that turn as well: its slot is not below [lastSlot], which is its
    own slot. *)
Theorem answered_again_processed_again
  (E : Env) (p1 p2 : Poll) (cur cur1 cur2 : Cursor) (w w1 w2 : World)
  (newest : ConfirmedSignatureInfo)
  (older again : list ConfirmedSignatureInfo)
  (Hempty : processingSignatures w = [])
  (Hanswer : source p1 (since cur) = Normal (newest :: older))
  (Hturn1 : pollOnce E p1 cur w = (Normal cur1, w1))
  (Hanswer2 : source p2 (since cur1) = Normal again)
  (Hagain : In newest again)
  (Hturn2 : pollOnce E p2 cur1 w1 = (Normal cur2, w2)) :
  In newest (handled_since w1 w2).
Proof.
  destruct (pollOnce_normal E _ _ _ _ _ _ _ Hanswer Hturn1)
    as (-> & _ & Hset & _).
  rewrite Hempty, trim_under in Hset by (cbn; unfold HIGH_WATER; lia).
  rewrite (handled_in_turn E _ _ _ _ _ _ Hanswer2 Hturn2), Hset.
  apply filter_In. split; [apply -> in_rev; exact Hagain|].
  unfold passes. cbn. apply Z.leb_refl.
Qed.

Lemma answered_again_processed_again_witness :
  In (mkSig "fill" 12)
     (handled_since
        (snd (pollOnce Ledger.env (Ledger.turn [mkSig "fill" 12] 100)
                       Runs.start Runs.feed))
        (snd (pollOnce Ledger.env
                (Ledger.turn [mkSig "order" 13; mkSig "fill" 12] 200)
                (mkCursor "fill" 12)
                (snd (pollOnce Ledger.env (Ledger.turn [mkSig "fill" 12] 100)
                               Runs.start Runs.feed))))).
Proof.
  refine (answered_again_processed_again Ledger.env
            (Ledger.turn [mkSig "fill" 12] 100)
            (Ledger.turn [mkSig "order" 13; mkSig "fill" 12] 200)
            Runs.start (mkCursor "fill" 12) (mkCursor "order" 13)
            Runs.feed _ _ (mkSig "fill" 12) []
            [mkSig "order" 13; mkSig "fill" 12] eq_refl eq_refl _ eq_refl _ _).
  - vm_compute. reflexivity.
  - cbn. tauto.
  - vm_compute. reflexivity.
Defined.

(** ** The lines of a transaction *)

Lemma prefix_app (n post : string) : String.prefix n (n ++ post)%string = true.
Proof.
  induction n as [|a n IH]; cbn.
  - now destruct post.
  - destruct (ascii_dec a a); [exact IH | congruence].
Qed.

Lemma prefix_inv (n hay : string) :
  String.prefix n hay = true -> exists post, hay = (n ++ post)%string.
Proof.
  revert hay. induction n as [|a n IH]; intros hay H.
  - now exists hay.
  - destruct hay as [|b hay]; cbn in H; [discriminate|].
    destruct (ascii_dec a b) as [->|]; [|discriminate].
    destruct (IH _ H) as [post ->]. now exists post.
Qed.

(** [includes] is the search for a substring. *)
Lemma includes_iff (n hay : string) :
  JsString.includes n hay = true
  <-> exists pre post, hay = (pre ++ n ++ post)%string.
Proof.
  split.
  - induction hay as [|c hay IH]; cbn [JsString.includes]; intros H;
      apply orb_true_iff in H; destruct H as [H|H].
    + apply prefix_inv in H. destruct H as [post ->]. now exists EmptyString, post.
    + discriminate.
    + apply prefix_inv in H. destruct H as [post ->]. now exists EmptyString, post.
    + destruct (IH H) as (pre & post & ->). now exists (String c pre), post.
  - intros (pre & post & ->). induction pre as [|c pre IH].
    + cbn [String.append]. destruct (n ++ post)%string eqn:Heq;
        cbn [JsString.includes]; rewrite <- Heq, prefix_app; reflexivity.
    + cbn [String.append JsString.includes]. rewrite IH. apply orb_true_r.
Qed.

Lemma fold_add_spec (a : list string) :
  forall acc,
    NoDup acc ->
    NoDup (fold_left (fun acc x => JsSet.add x acc) a acc)
    /\ forall x, In x (fold_left (fun acc x => JsSet.add x acc) a acc)
                 <-> In x acc \/ In x a.
Proof.
  induction a as [|y a IH]; intros acc Hnd; cbn [fold_left].
  - split; [exact Hnd|]. intros x. cbn. tauto.
  - assert (Hadd : NoDup (JsSet.add y acc)
                   /\ forall x, In x (JsSet.add y acc) <-> In x acc \/ x = y).
    { unfold JsSet.add. destruct (JsSet.has y acc) eqn:Hh.
      - apply JsSet_has_In in Hh. split; [exact Hnd|].
        intros x. split; [tauto | intros [H| ->]; assumption].
      - apply JsSet_has_false in Hh. split.
        + apply NoDup_app; repeat split; try assumption.
          * constructor; [intros [] | constructor].
          * intros x Hx [<-|[]]. contradiction.
        + intros x. rewrite in_app_iff. cbn. intuition congruence. }
    destruct Hadd as [Hnd' Hin']. destruct (IH _ Hnd') as [H1 H2].
    split; [exact H1|]. intros x. rewrite H2, Hin'. cbn. intuition congruence.
Qed.

(** X5: the lines of a transaction that are handled are the log messages
    in which the text "Program data:" occurs, at any place, and each
    distinct line is handled once however often the log repeats it. *)
Theorem marker_lines_selected_once (messages : list string) :
  NoDup (programDatas_of messages)
  /\ (forall line,
        In line (programDatas_of messages)
        <-> In line messages
            /\ exists pre post,
                 line = (pre ++ "Program data:" ++ post)%string)
  /\ (forall line, programDatas_of (line :: line :: messages)
                   = programDatas_of (line :: messages)).
Proof.
  unfold programDatas_of, JsSet.to_array, JsSet.of_array, JsSet.empty.
  destruct (fold_add_spec (filter (JsString.includes PROGRAM_DATA) messages) []
              (NoDup_nil _)) as [Hnd Hin].
  split; [exact Hnd|]. split.
  - intros line. rewrite Hin, filter_In, includes_iff. cbn. tauto.
  - intros line. cbn [filter].
    destruct (JsString.includes PROGRAM_DATA line); [|reflexivity].
    cbn [fold_left]. unfold JsSet.add at 2 4. cbn [JsSet.has existsb].
    unfold JsSet.add at 2. cbn [JsSet.has existsb app].
    now rewrite String.eqb_refl.
Qed.

Lemma handleProgramData_classified
  (E : Env) (sig : ConfirmedSignatureInfo) (entry : string) (w : World) :
  match classify E entry with
  | Fails e => handleProgramData E sig entry w = (Throw e, w)
  | Ignored => handleProgramData E sig entry w = (Normal tt, w)
  | _ =>
      exists w',
        handleProgramData E sig entry w = (Normal tt, w')
        /\ sent w' = sent w
             ++ flat_map (to_all (clients w)) (line_messages E sig entry)
        /\ fills w' = fills w ++ line_labels E entry
        /\ clients w' = clients w
  end.
Proof.
  unfold line_messages, line_labels, classify, handleProgramData, handleBuffer,
    decode_programData, bind, ret, await, throw, console_log, fills_inc,
    broadcast, modify, labels_of, to_all.
  destruct (atob E (JsString.toString (programData_of entry))) as [buffer|];
    [|reflexivity].
  destruct (buffer_equals (firstn 8 buffer) (fillDiscriminant E)).
  - destruct (FillLog_deserialize E (skipn 8 buffer)) as [f|e]; [|reflexivity].
    eexists. split; [reflexivity|]. cbn. rewrite !app_nil_r.
    split; [reflexivity | split; reflexivity].
  - destruct (buffer_equals (firstn 8 buffer) (placeOrderDiscriminant E));
      [|reflexivity].
    destruct (PlaceOrderLog_deserialize E (skipn 8 buffer)) as [o|e];
      [|reflexivity].
    eexists. split; [reflexivity|]. cbn. rewrite !app_nil_r.
    split; [reflexivity | split; reflexivity].
Qed.

Lemma handleProgramData_passes
  (E : Env) (sig : ConfirmedSignatureInfo) (entry : string) (w : World) :
  fails (classify E entry) = false ->
  exists w',
    handleProgramData E sig entry w = (Normal tt, w')
    /\ sent w' = sent w
         ++ flat_map (to_all (clients w)) (line_messages E sig entry)
    /\ fills w' = fills w ++ line_labels E entry
    /\ clients w' = clients w.
Proof.
  intros Hok. pose proof (handleProgramData_classified E sig entry w) as H.
  unfold line_messages, line_labels in *.
  destruct (classify E entry); try discriminate; try exact H.
  exists w. cbn. rewrite !app_nil_r. repeat split. exact H.
Qed.

(** Lines that all pass are published one after the other. *)
Lemma lines_dispatched (E : Env) (sig : ConfirmedSignatureInfo)
  (lines : list string) :
  forall w,
    (forall line, In line lines -> fails (classify E line) = false) ->
    exists w',
      for_of lines (handleProgramData E sig) w = (Normal tt, w')
      /\ sent w' = sent w ++ lines_sent E sig (clients w) lines
      /\ fills w' = fills w ++ flat_map (line_labels E) lines
      /\ clients w' = clients w.
Proof.
  induction lines as [|line lines IH]; intros w Hok; cbn [for_of].
  - exists w. cbn. rewrite !app_nil_r. repeat split.
  - destruct (handleProgramData_passes E sig line w)
      as (w1 & H1 & Hs1 & Hf1 & Hc1); [apply Hok; now left|].
    destruct (IH w1) as (w2 & H2 & Hs2 & Hf2 & Hc2).
    { intros l Hl. apply Hok. now right. }
    exists w2. rewrite (bind_normal _ _ _ _ _ H1).
    split; [exact H2|]. unfold lines_sent in *. cbn [flat_map].
    rewrite Hs2, Hs1, Hf2, Hf1, Hc2, Hc1, <- !app_assoc. repeat split.
Qed.

(** The first line that fails ends the loop over the lines. *)
Lemma lines_cut (E : Env) (sig : ConfirmedSignatureInfo)
  (pre : list string) (bad : string) (post : list string) (e : JsError)
  (w : World) :
  (forall line, In line pre -> fails (classify E line) = false) ->
  classify E bad = Fails e ->
  exists w',
    for_of (pre ++ bad :: post) (handleProgramData E sig) w = (Throw e, w')
    /\ sent w' = sent w ++ lines_sent E sig (clients w) pre
    /\ fills w' = fills w ++ flat_map (line_labels E) pre.
Proof.
  intros Hpre Hbad.
  destruct (lines_dispatched E sig pre w Hpre) as (w1 & H1 & Hs & Hf & _).
  exists w1. rewrite for_of_app, (bind_normal _ _ _ _ _ H1). cbn [for_of].
  pose proof (handleProgramData_classified E sig bad w1) as Hb.
  rewrite Hbad in Hb. rewrite (bind_throw _ _ _ _ _ Hb). auto.
Qed.

(** What [handleSignature] does with a transaction that succeeded *)
Lemma handleSignature_succeeded
  (E : Env) (sig : ConfirmedSignatureInfo) (messages : list string)
  (w : World) :
  succeeded_with messages (getTransaction E (signature sig)) ->
  handleSignature E sig w =
  if (List.length (programDatas_of messages) =? 0)%nat
  then console_log LogNoProgramDatas (announced sig w)
  else for_of (programDatas_of messages) (handleProgramData E sig)
              (announced sig w).
Proof.
  intros (tx & m & Hr & Hm & Hl & He). unfold handleSignature, announced.
  unfold bind at 1. cbn [console_log modify snd].
  rewrite Hr. unfold bind at 1, await at 1. unfold tx_logMessages.
  rewrite Hm, Hl, He. cbv zeta.
  destruct (List.length (programDatas_of messages) =? 0)%nat; reflexivity.
Qed.

(** X6: for a transaction that succeeded and whose selected lines all
    decode, [handleSignature] returns normally; every listener connected
    has been sent, in the order of the log, one message for each line
    that carries a fill or an order, the counter has been incremented once
    for each fill and for nothing else, and lines with another tag have
    left no trace. With no selected line nothing is sent or counted. *)
Theorem events_published_in_log_order
  (E : Env) (sig : ConfirmedSignatureInfo) (messages : list string)
  (w : World)
  (Htx : succeeded_with messages (getTransaction E (signature sig)))
  (Hok : forall line, In line (programDatas_of messages) ->
                      fails (classify E line) = false) :
  exists w',
    handleSignature E sig w = (Normal tt, w')
    /\ sent w' = sent w
         ++ lines_sent E sig (clients w) (programDatas_of messages)
    /\ fills w' = fills w
         ++ flat_map (line_labels E) (programDatas_of messages).
Proof.
  rewrite (handleSignature_succeeded E sig messages w Htx).
  destruct (programDatas_of messages) as [|line lines] eqn:Hp.
  - cbn. eexists. split; [reflexivity|]. rewrite !app_nil_r. split; reflexivity.
  - cbn [List.length Nat.eqb].
    destruct (lines_dispatched E sig (line :: lines) (announced sig w) Hok)
      as (w' & H & Hs & Hf & _).
    exists w'. split; [exact H | split; [exact Hs | exact Hf]].
Qed.

Lemma events_published_in_log_order_witness :
  exists w',
    handleSignature Ledger.env (mkSig "fill" 12) Ledger.fresh = (Normal tt, w')
    /\ sent w'
       = [(1%nat, FillMessage
                    (toFillLogResult Ledger.env Ledger.sample_fill 12 "fill"))]
    /\ fills w' = [labels_of Ledger.env Ledger.sample_fill].
Proof.
  refine (events_published_in_log_order Ledger.env (mkSig "fill" 12)
            ["Program log: Instruction: Swap"; "Program data: OubyA0txBKk="]
            Ledger.fresh _ _).
  - eexists _, _. repeat split; reflexivity.
  - intros line [<-|[]]. reflexivity.
Defined.

(** X7: when a selected line cannot be decoded or deserialized,
    [handleSignature] throws at that line: the events of the lines before
    it have been sent and counted, the lines after it are not looked
    at. *)
Theorem failing_line_cuts_transaction
  (E : Env) (sig : ConfirmedSignatureInfo) (messages : list string)
  (pre : list string) (bad : string) (post : list string) (e : JsError)
  (w : World)
  (Htx : succeeded_with messages (getTransaction E (signature sig)))
  (Hlines : programDatas_of messages = pre ++ bad :: post)
  (Hpre : forall line, In line pre -> fails (classify E line) = false)
  (Hbad : classify E bad = Fails e) :
  exists w',
    handleSignature E sig w = (Throw e, w')
    /\ sent w' = sent w ++ lines_sent E sig (clients w) pre
    /\ fills w' = fills w ++ flat_map (line_labels E) pre.
Proof.
  rewrite (handleSignature_succeeded E sig messages w Htx), Hlines.
  destruct (Nat.eqb_spec (List.length (pre ++ bad :: post)) 0) as [Hz|_].
  { rewrite length_app in Hz. cbn in Hz. lia. }
  apply (lines_cut E sig pre bad post e (announced sig w) Hpre Hbad).
Qed.

Lemma failing_line_cuts_transaction_witness :
  exists w',
    handleSignature Runs.env_mixed (mkSig "any" 12) Ledger.fresh
    = (Throw InvalidCharacterError, w')
    /\ sent w'
       = [(1%nat, FillMessage
                    (toFillLogResult Runs.env_mixed Ledger.sample_fill 12 "any"))]
    /\ fills w' = [labels_of Runs.env_mixed Ledger.sample_fill].
Proof.
  refine (failing_line_cuts_transaction Runs.env_mixed (mkSig "any" 12)
            Runs.mixed_log ["Program data: OubyA0txBKk="] "Program data: %%%"
            ["Program data: nXb31S8TpHg="] InvalidCharacterError
            Ledger.fresh _ eq_refl _ eq_refl).
  - eexists _, _. repeat split; reflexivity.
  - intros line [<-|[]]. reflexivity.
Defined.

Lemma buffer_equals_true (a b : list byte) : buffer_equals a b = true <-> a = b.
Proof.
  unfold buffer_equals. destruct (list_eq_dec Byte.byte_eq_dec a b); split;
    congruence.
Qed.

(** X8: a selected line whose payload decodes to fewer than eight bytes,
    or to bytes that start with neither tag, is passed over: nothing is
    deserialized, logged, sent or counted, and nothing is thrown. (The
    two tags have eight bytes.) *)
Theorem short_or_foreign_payload_ignored
  (E : Env) (sig : ConfirmedSignatureInfo) (entry : string)
  (buffer : list byte) (w : World)
  (Hfill : List.length (fillDiscriminant E) = 8%nat)
  (Horder : List.length (placeOrderDiscriminant E) = 8%nat)
  (Hdecoded : atob E (JsString.toString (programData_of entry)) = Some buffer)
  (Hother : (List.length buffer < 8)%nat
            \/ (firstn 8 buffer <> fillDiscriminant E
                /\ firstn 8 buffer <> placeOrderDiscriminant E)) :
  handleProgramData E sig entry w = (Normal tt, w).
Proof.
  assert (Hne : firstn 8 buffer <> fillDiscriminant E
                /\ firstn 8 buffer <> placeOrderDiscriminant E).
  { destruct Hother as [Hshort|H]; [|exact H].
    split; intros Heq; apply (f_equal (@List.length byte)) in Heq;
      rewrite length_firstn in Heq; lia. }
  destruct Hne as [Hf Ho].
  pose proof (handleProgramData_classified E sig entry w) as H.
  unfold classify in H. rewrite Hdecoded in H.
  destruct (buffer_equals (firstn 8 buffer) (fillDiscriminant E)) eqn:Bf.
  { apply buffer_equals_true in Bf. contradiction. }
  destruct (buffer_equals (firstn 8 buffer) (placeOrderDiscriminant E)) eqn:Bo.
  { apply buffer_equals_true in Bo. contradiction. }
  exact H.
Qed.

Lemma short_or_foreign_payload_ignored_witness :
  handleProgramData Ledger.env (mkSig "fill" 12) "Program data: AAAA"
                    Ledger.fresh
  = (Normal tt, Ledger.fresh).
Proof.
  apply (short_or_foreign_payload_ignored Ledger.env (mkSig "fill" 12)
           "Program data: AAAA" [x00; x00; x00] Ledger.fresh
           eq_refl eq_refl eq_refl).
  left. cbn. lia.
Defined.

(** X9: a line in which the marker is followed at once by the payload,
    with no space between them, is selected but has no token at index 2:
    [atob] is given [undefined], which it reads as the text "undefined",
    and when it rejects that text the line makes [handleSignature]
    throw. *)
Theorem marker_without_space_throws
  (E : Env) (sig : ConfirmedSignatureInfo) (payload : string) (w : World)
  (Hundefined : atob E "undefined" = None)
  (Hpayload : free_of " " payload = true) :
  JsString.includes PROGRAM_DATA ("Program data:" ++ payload)%string = true
  /\ programData_of ("Program data:" ++ payload)%string = None
  /\ handleProgramData E sig ("Program data:" ++ payload)%string w
     = (Throw InvalidCharacterError, w).
Proof.
  assert (Hnone : programData_of ("Program data:" ++ payload)%string = None).
  { unfold programData_of.
    change ("Program data:" ++ payload)%string
      with ("Program" ++ String " " ("data:" ++ payload))%string.
    rewrite split_token by reflexivity.
    rewrite split_single by (cbn; exact Hpayload). reflexivity. }
  split; [|split; [exact Hnone|]].
  - apply includes_iff. now exists EmptyString, payload.
  - pose proof (handleProgramData_classified E sig
                  ("Program data:" ++ payload)%string w) as H.
    unfold classify in H. rewrite Hnone in H. cbn [JsString.toString] in H.
    now rewrite Hundefined in H.
Qed.

Lemma marker_without_space_throws_witness :
  handleProgramData Ledger.env (mkSig "fill" 12) "Program data:OubyA0txBKk="
                    Ledger.fresh
  = (Throw InvalidCharacterError, Ledger.fresh).
Proof.
  apply (marker_without_space_throws Ledger.env (mkSig "fill" 12)
           "OubyA0txBKk=" Ledger.fresh eq_refl eq_refl).
Defined.

Lemma grows_refl w : grows w w.
Proof. repeat split; exists []; now rewrite app_nil_r. Qed.

Lemma grows_trans w1 w2 w3 : grows w1 w2 -> grows w2 w3 -> grows w1 w3.
Proof.
  intros ([a Ha] & [b Hb] & [c Hc]) ([a' Ha'] & [b' Hb'] & [c' Hc']).
  repeat split;
    [exists (a ++ a') | exists (b ++ b') | exists (c ++ c')];
    rewrite app_assoc; congruence.
Qed.

Lemma keeps_grows_console_log (l : LogLine) : keeps grows (console_log l).
Proof.
  intros w. cbn. repeat split;
    [now exists [l] | exists [] | exists []]; now rewrite app_nil_r.
Qed.

Lemma keeps_grows_broadcast (msg : Message) : keeps grows (broadcast msg).
Proof.
  intros w. cbn. repeat split;
    [exists [] | now eexists | exists []]; now rewrite app_nil_r.
Qed.

Lemma keeps_grows_fills_inc (l : FillLabels) : keeps grows (fills_inc l).
Proof.
  intros w. cbn. repeat split;
    [exists [] | exists [] | now exists [l]]; now rewrite app_nil_r.
Qed.

Ltac keeps_grows :=
  repeat first
    [ apply (keeps_ret grows grows_refl)
    | apply (keeps_throw grows grows_refl)
    | apply (keeps_await grows grows_refl)
    | apply keeps_grows_console_log
    | apply keeps_grows_broadcast
    | apply keeps_grows_fills_inc
    | apply (keeps_bind grows grows_trans); [| intros ?] ].

Lemma keeps_grows_handleProgramData (E : Env) sig entry :
  keeps grows (handleProgramData E sig entry).
Proof.
  unfold handleProgramData, handleBuffer.
  apply (keeps_bind grows grows_trans).
  - unfold decode_programData.
    destruct (atob E (JsString.toString (programData_of entry))); keeps_grows.
  - intros buffer.
    destruct (buffer_equals (firstn 8 buffer) (fillDiscriminant E));
      [| destruct (buffer_equals (firstn 8 buffer) (placeOrderDiscriminant E))];
      keeps_grows.
Qed.

Lemma keeps_grows_handleSignature (E : Env) sig :
  keeps grows (handleSignature E sig).
Proof.
  unfold handleSignature. keeps_grows.
  match goal with |- keeps _ (match tx_logMessages ?t with _ => _ end) =>
    destruct (tx_logMessages t) as [[m messages]|] end; [| keeps_grows].
  destruct (err m); [keeps_grows|].
  destruct (List.length (programDatas_of messages) =? 0)%nat; [keeps_grows|].
  apply (keeps_for_of grows grows_refl grows_trans).
  intros entry. apply keeps_grows_handleProgramData.
Qed.

(** X10: whether it returns or throws, [handleSignature] writes no field
    of the object: [shouldEnd], [ended], [lastUpdateUnix],
    [processingSignatures], the state of the server and the set of
    listeners are as it found them; and what had been logged, sent and
    counted before is still there, in front of what it added. *)
Theorem handleSignature_writes_no_field
  (E : Env) (sig : ConfirmedSignatureInfo) (w : World) :
  same_fields w (snd (handleSignature E sig w))
  /\ grows w (snd (handleSignature E sig w)).
Proof.
  split; [apply keeps_handleSignature | apply keeps_grows_handleSignature].
Qed.

(** ** The loop, its end and the monitor *)

Lemma pollLoop_quiet (E : Env) (endTime : Z) (polls : list Poll) :
  forall cur w,
    Forall quiet polls ->
    exists r w',
      pollLoop E endTime polls cur w = (Normal (r, cur), w')
      /\ lastUpdateUnix w' = lastUpdateUnix w
      /\ console w' = console w /\ sent w' = sent w /\ fills w' = fills w.
Proof.
  induction polls as [|p polls IH]; intros cur w Hq.
  - exists false, w. cbn. repeat split.
  - inversion Hq as [|? ? Hp Hrest]; subst.
    destruct (shouldEnd w || stopRequested p) eqn:Hs.
    { eexists _, _. rewrite pollLoop_exit by now left.
      split; [reflexivity|]. cbn. repeat split. }
    destruct (Z.lt_ge_cases (nowAtCheck p) endTime) as [Hlt|Hge].
    2:{ eexists _, _. rewrite pollLoop_exit by now right.
        split; [reflexivity|]. cbn. repeat split. }
    destruct (IH cur w Hrest) as (r & w' & H & Hfields).
    exists r, w'. rewrite pollLoop_step by assumption.
    rewrite (bind_normal _ _ _ _ _ (pollOnce_empty E p cur w (Hp (since cur)))).
    split; [exact H | exact Hfields].
Qed.

(** X11: turns in which the remote source has nothing new leave the cursor
    and [lastUpdateUnix] alone, log nothing and send nothing, however many
    they are; a check of the monitor more than 300 seconds after the last
    update therefore throws, although every poll succeeded. *)
Theorem quiet_feed_declared_dead
  (E : Env) (endTime : Z) (polls : list Poll) (cur : Cursor) (w : World)
  (Hquiet : Forall quiet polls) :
  exists r w',
    pollLoop E endTime polls cur w = (Normal (r, cur), w')
    /\ lastUpdateUnix w' = lastUpdateUnix w
    /\ console w' = console w /\ sent w' = sent w
    /\ forall now later,
         now - lastUpdateUnix w > deadThreshold ->
         monitorFeed ({| nowAtMonitor := now; feedAtMonitor := w' |} :: later)
         = Some monitor_error.
Proof.
  destruct (pollLoop_quiet E endTime polls cur w Hquiet)
    as (r & w' & H & Ht & Hc & Hs & _).
  exists r, w'. split; [exact H|]. split; [exact Ht|]. split; [exact Hc|].
  split; [exact Hs|]. intros now later Hlate.
  cbn [monitorFeed nowAtMonitor feedAtMonitor]. unfold msSinceLastUpdate.
  rewrite Ht. destruct (Z.gtb_spec (now - lastUpdateUnix w) deadThreshold);
    [reflexivity | lia].
Qed.

Lemma quiet_feed_declared_dead_witness :
  exists r w',
    pollLoop Ledger.env 1000000000000
             [Ledger.turn [] 10000; Ledger.turn [] 20000] Runs.start Runs.feed
    = (Normal (r, Runs.start), w')
    /\ monitorFeed [ {| nowAtMonitor := 300001; feedAtMonitor := w' |} ]
       = Some monitor_error.
Proof.
  destruct (quiet_feed_declared_dead Ledger.env 1000000000000
              [Ledger.turn [] 10000; Ledger.turn [] 20000] Runs.start
              Runs.feed) as (r & w' & H & _ & _ & _ & Hdead).
  - repeat constructor.
  - exists r, w'. split; [exact H|]. apply Hdead. reflexivity.
Defined.

(** X12: [monitorFeed] ends in one way only, by the exception it throws at
    the first check that finds the last update more than 300 seconds old;
    an age of exactly 300 seconds, or a negative one, lets it go on. *)
Theorem monitor_throws_at_first_stale_check
  (pre : list MonitorCheck) (c : MonitorCheck) (post : list MonitorCheck)
  (Hfresh : Forall (fun c => msSinceLastUpdate (nowAtMonitor c)
                                               (feedAtMonitor c)
                             <= deadThreshold) pre) :
  monitorFeed pre = None
  /\ (stale c -> monitorFeed (pre ++ c :: post) = Some monitor_error)
  /\ (~ stale c -> monitorFeed (pre ++ c :: post) = monitorFeed post).
Proof.
  induction Hfresh as [|c0 pre Hc0 Hpre IH]; cbn [app monitorFeed].
  - split; [reflexivity|]. unfold stale.
    destruct (Z.gtb_spec (msSinceLastUpdate (nowAtMonitor c) (feedAtMonitor c))
                         deadThreshold); split; intros; try reflexivity; lia.
  - destruct (Z.gtb_spec (msSinceLastUpdate (nowAtMonitor c0) (feedAtMonitor c0))
                         deadThreshold); [lia | exact IH].
Qed.

Lemma monitor_throws_at_first_stale_check_witness :
  monitorFeed ([ {| nowAtMonitor := 300000; feedAtMonitor := Runs.feed |} ]
               ++ {| nowAtMonitor := 300001; feedAtMonitor := Runs.feed |}
               :: [])
  = Some monitor_error.
Proof.
  apply (monitor_throws_at_first_stale_check
           [ {| nowAtMonitor := 300000; feedAtMonitor := Runs.feed |} ]
           {| nowAtMonitor := 300001; feedAtMonitor := Runs.feed |} []).
  - repeat constructor. unfold deadThreshold. cbn. lia.
  - unfold stale, deadThreshold. cbn. lia.
Defined.

Lemma parseLogs_running_server (E : Env) endEarly s polls w cur w' :
  parseLogs E endEarly s polls w = (Normal (false, cur), w') ->
  same_server w w'.
Proof.
  unfold parseLogs. unfold bind at 1, await.
  destruct (firstSource s _) as [answer|e0]; [|discriminate].
  destruct (nth_error answer 0) as [first|]; [|discriminate].
  intros H. apply bind_inv_normal in H.
  destruct H as ([exited cur1] & w1 & H1 & H2).
  destruct exited; cbn in H2; [discriminate|].
  injection H2 as _ <-.
  pose proof (keeps_server_pollLoop E (endTime_of endEarly (nowAtStart s))
                polls (cursor_at first) w) as K.
  unfold cursor_at in K. now rewrite H1 in K.
Qed.

(** X13: [parseLogs] sets [ended] in one case only, when its loop has
    left through the loop condition, and then the server is closed as
    well: while it is still running and after it has thrown, [ended] is
    as unset as before. *)
Theorem ended_only_when_loop_left
  (E : Env) (endEarly : bool) (s : Startup) (polls : list Poll)
  (w w' : World) (r : completion (bool * Cursor))
  (Hunset : ended w = false)
  (Hrun : parseLogs E endEarly s polls w = (r, w')) :
  (ended w' = true <-> exists cur, r = Normal (true, cur))
  /\ (ended w' = true -> wssOpen w' = false).
Proof.
  destruct r as [[[|] cur]|e].
  - destruct (parseLogs_exit E _ _ _ _ _ _ Hrun) as [He Hw].
    split; [|trivial]. split; [now exists cur | trivial].
  - destruct (parseLogs_running_server E _ _ _ _ _ _ Hrun) as [He _].
    rewrite He, Hunset. split; [|discriminate].
    split; [discriminate | intros [c Hc]; discriminate].
  - destruct (parseLogs_throw_server E _ _ _ _ _ _ Hrun) as [He _].
    rewrite He, Hunset. split; [|discriminate].
    split; [discriminate | intros [c Hc]; discriminate].
Qed.

Lemma ended_only_when_loop_left_witness :
  ended (snd (parseLogs Ledger.env false ThrowExample.startup
                        [ThrowExample.turn] Runs.feed)) = true
  <-> exists cur : Cursor,
        @Throw (bool * Cursor) InvalidCharacterError = Normal (true, cur).
Proof.
  apply (proj1 (ended_only_when_loop_left Ledger.env false
                  ThrowExample.startup [ThrowExample.turn] Runs.feed
                  (snd (parseLogs Ledger.env false ThrowExample.startup
                                  [ThrowExample.turn] Runs.feed))
                  (Throw InvalidCharacterError) eq_refl
                  ltac:(vm_compute; reflexivity))).
Defined.

(** X14: the loop leaves at the first test of its condition that finds
    the stop flag raised or the clock at or past the end time, which with
    [endEarly] is 30 seconds after the start: the answer of that turn is
    not asked for, no further signature is handled, the cursor stays, the
    server is closed and [ended] is set. *)
Theorem loop_leaves_at_stop_or_deadline
  (E : Env) (endEarly : bool) (s : Startup)
  (first : ConfirmedSignatureInfo) (others : list ConfirmedSignatureInfo)
  (before : list Poll) (p : Poll) (rest : list Poll)
  (w w1 : World) (cur1 : Cursor)
  (Hfirst : firstSource s most_recent_one = Normal (first :: others))
  (Hbefore : pollLoop E (endTime_of endEarly (nowAtStart s)) before
                      (cursor_at first) w
             = (Normal (false, cur1), w1))
  (Hexit : shouldEnd w1 || stopRequested p = true
           \/ endTime_of endEarly (nowAtStart s) <= nowAtCheck p) :
  endTime_of true (nowAtStart s) = nowAtStart s + 30000
  /\ exists w',
       parseLogs E endEarly s (before ++ p :: rest) w
       = (Normal (true, cur1), w')
       /\ ended w' = true /\ wssOpen w' = false
       /\ handled w' = handled w1 /\ sent w' = sent w1
       /\ lastUpdateUnix w' = lastUpdateUnix w1
       /\ processingSignatures w' = processingSignatures w1.
Proof.
  split; [reflexivity|].
  assert (Hloop :
    pollLoop E (endTime_of endEarly (nowAtStart s)) (before ++ p :: rest)
             (cursor_at first) w
    = (Normal (true, cur1),
       set_shouldEnd (shouldEnd w1 || stopRequested p) w1)).
  { rewrite pollLoop_app, Hbefore. now apply pollLoop_exit. }
  rewrite (parseLogs_started E _ _ _ _ _ _ Hfirst).
  rewrite (bind_normal _ _ _ _ _ Hloop).
  eexists. split; [reflexivity|].
  unfold handled. cbn. rewrite flat_map_app. cbn.
  rewrite app_nil_r. repeat split.
Qed.

Lemma loop_leaves_at_stop_or_deadline_witness :
  exists w',
    parseLogs Ledger.env true ThrowExample.startup
              ([Ledger.turn [mkSig "fill" 12] 100]
               ++ Ledger.turn [mkSig "order" 13] 30000 :: [])
              Runs.feed
    = (Normal (true, mkCursor "fill" 12), w')
    /\ ended w' = true /\ wssOpen w' = false.
Proof.
  destruct (loop_leaves_at_stop_or_deadline Ledger.env true
              ThrowExample.startup (mkSig "start" 10) []
              [Ledger.turn [mkSig "fill" 12] 100]
              (Ledger.turn [mkSig "order" 13] 30000) []
              Runs.feed
              (snd (pollLoop Ledger.env 30000
                      [Ledger.turn [mkSig "fill" 12] 100]
                      (mkCursor "start" 10) Runs.feed))
              (mkCursor "fill" 12) eq_refl)
    as (_ & w' & H & He & Hw & _).
  - vm_compute. reflexivity.
  - right. cbn. lia.
  - exists w'. split; [exact H | split; [exact He | exact Hw]].
Defined.

Lemma stopWait_keeps_shouldEnd (start : Z) (ticks : list StopTick) :
  forall w,
    (forall t, In t ticks -> forall x, shouldEnd (duringSleep t x) = shouldEnd x) ->
    shouldEnd (snd (stopWait start ticks w)) = shouldEnd w.
Proof.
  induction ticks as [|t ticks IH]; intros w Hkeep; cbn [stopWait].
  - now destruct (ended w).
  - destruct (ended w); [reflexivity|].
    destruct (nowAtTest t - start >? TIMEOUT); [reflexivity|].
    rewrite IH.
    + apply Hkeep. now left.
    + intros t' Hin. apply Hkeep. now right.
Qed.

(** X15: however [stopParseLogs] ends, resolved, rejected or still
    waiting, it leaves [shouldEnd] raised (nothing in the program lowers
    it): the next test of the loop condition finds it and ends the loop
    without asking the remote source, also after a wait that was given up
    on its timeout. *)
Theorem stop_request_outlives_the_wait
  (E : Env) (start : Z) (ticks : list StopTick) (w : World)
  (Hkeep : forall t, In t ticks ->
           forall x, shouldEnd (duringSleep t x) = shouldEnd x) :
  shouldEnd (snd (stopParseLogs start ticks w)) = true
  /\ forall endTime p rest cur,
       pollLoop E endTime (p :: rest) cur (snd (stopParseLogs start ticks w))
       = (Normal (true, cur), snd (stopParseLogs start ticks w)).
Proof.
  assert (Hraised : shouldEnd (snd (stopParseLogs start ticks w)) = true).
  { unfold stopParseLogs. now rewrite stopWait_keeps_shouldEnd. }
  split; [exact Hraised|].
  intros endTime p rest cur.
  rewrite pollLoop_exit by (left; now rewrite Hraised).
  rewrite Hraised. cbn [orb]. now rewrite set_shouldEnd_same.
Qed.

Lemma stop_request_outlives_the_wait_witness :
  fst (stopParseLogs 1000 (StopExample.stuck ++ [StopExample.late]) Runs.feed)
  = Rejected stop_error
  /\ pollLoop Ledger.env 1000000000000
              [Ledger.turn [mkSig "fill" 12] 40000] Runs.start
              (snd (stopParseLogs 1000 (StopExample.stuck ++ [StopExample.late])
                                  Runs.feed))
     = (Normal (true, Runs.start),
        snd (stopParseLogs 1000 (StopExample.stuck ++ [StopExample.late])
                           Runs.feed)).
Proof.
  split; [reflexivity|].
  apply (proj2 (stop_request_outlives_the_wait Ledger.env 1000
                  (StopExample.stuck ++ [StopExample.late]) Runs.feed
                  ltac:(intros t [<-|[<-|[<-|[]]]] x; reflexivity))).
Defined.
